(** * run_ppo_vector_multi: a trace model of the distributed PPO driver script

    The script [example/run_ppo_vector_multi.py] owns no algorithm: it parses
    its command line, prepares a log directory, seeds and builds the
    framework objects and then loops over sample / preprocess / update /
    log / checkpoint.  Everything it does is a call into a library
    (argparse, os, json, torch, numpy, gym, machina).  The embedding below
    keeps the script's own control flow and arithmetic and records every
    library call, with the arguments the script passes, in a trace.  What a
    library call answers (and whether it raises) is read from a [World]
    that may depend on the whole history of calls.  *)

From Stdlib Require Import ZArith List String Ascii Bool Lia SpecFloat DecimalString Sorted.
From Stdlib Require Import DecimalZ DecimalPos.
Import ListNotations.
Local Open Scope string_scope.
Local Open Scope list_scope.
Local Open Scope Z_scope.

(** ** Numbers

    Python [float] and numpy [float64] are IEEE binary64: [spec_float] with
    53 bits of precision.  A value handed around by the script is either a
    Python [int] or such a float ([default=1] of a [type=float] flag stays
    an [int], since argparse converts string defaults only). *)

Definition prec : Z := 53.
Definition emax : Z := 1024.
Definition float : Type := spec_float.

Inductive pynum : Type :=
| PyInt (z : Z)
| PyFloat (f : float).

Definition float_of_int (z : Z) : float := binary_normalize prec emax z 0 false.

Definition to_float (x : pynum) : float :=
  match x with
  | PyInt z => float_of_int z
  | PyFloat f => f
  end.

Definition is_nan (f : float) : bool :=
  match f with S754_nan => true | _ => false end.

(** [a > b] on floats. *)
Definition float_gt (a b : float) : bool := SFltb b a.

(** [a <= b] on floats. *)
Definition float_le (a b : float) : bool := SFleb a b.

(** The literals of the script. *)
Definition f_minus_1e6 : float := S754_finite true 8589934592000000 (-33).
Definition f_3e_4 : float := S754_finite false 5534023222112865 (-64).
Definition f_0_01 : float := S754_finite false 5764607523034235 (-59).
Definition f_0_2 : float := S754_finite false 7205759403792794 (-55).
Definition f_0_995 : float := S754_finite false 8962163258467287 (-53).

(** ** Exceptions and outcomes *)

Inductive exn : Type :=
| SystemExit (code : Z)          (* argparse's [parser.error] *)
| TypeError
| ZeroDivisionError
| IndexError
| KeyError (key : string)
| LibraryError (what : string).  (* anything a library call raises *)

Inductive result (A : Type) : Type :=
| Ok (a : A)
| Raise (e : exn).
Arguments Ok {A} a.
Arguments Raise {A} e.

Definition rbind {A B} (r : result A) (f : A -> result B) : result B :=
  match r with
  | Ok a => f a
  | Raise e => Raise e
  end.

(** ** Strings and paths *)

Definition string_of_Z (z : Z) : string := NilZero.string_of_int (Z.to_int z).

Fixpoint endswith_sep (s : string) : bool :=
  match s with
  | EmptyString => false
  | String c EmptyString => Ascii.eqb c "/"
  | String _ rest => endswith_sep rest
  end.

Definition startswith_sep (s : string) : bool :=
  match s with
  | String c _ => Ascii.eqb c "/"
  | EmptyString => false
  end.

(** [posixpath.join(a, *p)]: an absolute component restarts the path, a
    separator is inserted unless the path so far is empty or ends in one. *)
Definition join_step (path b : string) : string :=
  if startswith_sep b then b
  else if (String.eqb path "" || endswith_sep path)%bool then (path ++ b)%string
  else (path ++ "/" ++ b)%string.

Definition os_path_join (a : string) (p : list string) : string :=
  fold_left join_step p a.

(** ** The parsed command line *)

Record Args : Type := mkArgs {
  log : string;
  env_name : string;
  record : bool;
  episode : Z;
  seed : Z;
  max_episodes : Z;
  num_parallel : Z;
  local_rank : option Z;        (* no default: [None] unless given *)
  world_size : Z;
  max_samples_per_iter : Z;
  epoch_per_iter : Z;
  batch_size : Z;
  pol_lr : pynum;
  vf_lr : pynum;
  ent_beta : pynum;
  h_size : Z;
  cell_size : Z;
  ppo_type : string;
  clip_param : pynum;
  kl_targ : pynum;
  init_kl_beta : pynum;
  gamma : pynum;
  lam : pynum
}.

(** ** Library calls

    One constructor per library entry point the script calls, carrying the
    arguments the script passes.  Framework objects (environment, networks,
    policy, value function, sampler, optimizers, data) are opaque to the
    script and are not represented; [obj] names the four whose
    [state_dict()] is saved.  [OpenW] and [JsonDump] are the [with open]
    block of lines 75-76, [MeasureEnter] and [MeasureExit] the entry and
    the normal exit of a [with measure] block; the implicit exits of these
    blocks on an exception are not recorded. *)

Inductive obj : Type := Pol | Vf | OptimPol | OptimVf.

Inductive net : Type := PolNet | VfNet.

(** A rollout, as far as the script reads it: the array [path['rews']]
    and the mask [path['dones']], whose entries the script compares
    with 1. *)
Record path : Type := mkPath {
  rews : list float;
  dones : list Z
}.

Definition result_dict : Type := list (string * pynum).

Inductive call : Type :=
| OsPathExists (p : string)
| OsMkdir (p : string)
| OpenW (p : string)
| JsonDump (a : Args) (p : string)
| Pprint (a : Args)
| InitProcessGroup (backend : string) (world_size : Z) (rank : option Z)
| NpRandomSeed (s : Z)
| TorchManualSeed (s : Z)
| TorchSetNumThreads (n : Z)
| TorchDevice (name : string)
| SetDevice (name : string)
| AddTabularOutput (p : string)
| MkGymEnv (env_name log_dir : string) (record_video : bool)
| EnvSeed (s : Z)
| MkPolNetLSTM (h_size cell_size : Z)
| MkGaussianPol
| MkVNetLSTM (h_size cell_size : Z)
| MkDeterministicVfunc
| MkParallelVectorSampler (max_samples num_parallel seed : Z)
| MkDistributedAdamW (n : net) (rank : option Z) (world_size : Z) (lr : pynum)
| MeasureEnter (name : string)
| MeasureExit (name : string)
| SamplerSample
| MkGAEVectorData (paths : list path)
| Preprocess (gamma lam : pynum) (centerize : bool)
| PpoClipTrain (epoch batch : Z) (clip ent : pynum)
| PpoKlTrain (kl_beta kl_targ : pynum) (epoch batch : Z)
| RecordResults (log : string) (rd : result_dict) (score_file : string)
                (total_epi step total_step : Z) (rewards : list pynum)
                (plot_title : string)
| TorchSave (o : obj) (p : string).

Definition trace : Type := list call.

(** ** The world outside the script

    The answers of the libraries.  Pure library functions depend on their
    argument only; the others may depend on everything that was called
    before. *)

Record World : Type := mkWorld {
  (* builtins [int(s)] and [float(s)]: [None] is a ValueError *)
  py_int : string -> option Z;
  py_float : string -> option float;
  (* argparse's matching of command-line tokens with the declared option
     strings: the destination and the explicit argument of every option
     found, or [None] for a command line it rejects *)
  match_options : list string -> option (list (string * option string));
  (* [np.mean] *)
  np_mean : list pynum -> float;
  (* does this call raise, after this history? *)
  raises : trace -> call -> option exn;
  (* [os.path.exists] *)
  path_exists : trace -> string -> bool;
  (* what [sampler.sample(pol)] returned *)
  sampled_paths : trace -> list path;
  (* [data.num_epi] *)
  data_num_epi : trace -> Z;
  (* what [ppo_clip.train] / [ppo_kl.train] returned *)
  train_result : trace -> result_dict
}.

(** ** The argument parser, lines 41-70 *)

Inductive value : Type :=
| VNone
| VStr (s : string)
| VInt (z : Z)
| VNum (x : pynum)
| VBool (b : bool).

(** The namespace as a dictionary ([vars(args)]); a later entry for a
    destination overrides an earlier one. *)
Definition namespace : Type := list (string * value).

Fixpoint getattr (ns : namespace) (dest : string) : option value :=
  match ns with
  | [] => None
  | (d, v) :: rest =>
    match getattr rest dest with
    | Some v' => Some v'
    | None => if String.eqb d dest then Some v else None
    end
  end.

Inductive arg_type : Type := TStr | TInt | TFloat.

Inductive action : Type :=
| Store (ty : arg_type) (choices : option (list string))
| StoreTrue.

(** The [add_argument] calls: destination, action, default. *)
Definition parser : list (string * (action * value)) := [
  ("log", (Store TStr None, VStr "garbage"));
  ("env_name", (Store TStr None, VStr "Pendulum-v0"));
  ("record", (StoreTrue, VBool false));
  ("episode", (Store TInt None, VInt 1000000));
  ("seed", (Store TInt None, VInt 256));
  ("max_episodes", (Store TInt None, VInt 1000000));
  ("num_parallel", (Store TInt None, VInt 4));
  ("local_rank", (Store TInt None, VNone));
  ("world_size", (Store TInt None, VInt 4));
  ("max_samples_per_iter", (Store TInt None, VInt 2048));
  ("epoch_per_iter", (Store TInt None, VInt 4));
  ("batch_size", (Store TInt None, VInt 8));
  ("pol_lr", (Store TFloat None, VNum (PyFloat f_3e_4)));
  ("vf_lr", (Store TFloat None, VNum (PyFloat f_3e_4)));
  ("ent_beta", (Store TFloat None, VNum (PyFloat f_0_01)));
  ("h_size", (Store TInt None, VInt 1024));
  ("cell_size", (Store TInt None, VInt 512));
  ("ppo_type", (Store TStr (Some ["clip"; "kl"]), VStr "clip"));
  ("clip_param", (Store TFloat None, VNum (PyFloat f_0_2)));
  ("kl_targ", (Store TFloat None, VNum (PyFloat f_0_01)));
  ("init_kl_beta", (Store TFloat None, VNum (PyInt 1)));
  ("gamma", (Store TFloat None, VNum (PyFloat f_0_995)));
  ("lam", (Store TFloat None, VNum (PyInt 1)))
].

Definition defaults : namespace :=
  map (fun d => (fst d, snd (snd d))) parser.

Fixpoint find_action (dest : string) (p : list (string * (action * value)))
  : option action :=
  match p with
  | [] => None
  | (d, (act, _)) :: rest => if String.eqb d dest then Some act else find_action dest rest
  end.

Definition in_choices (s : string) (choices : option (list string)) : bool :=
  match choices with
  | None => true
  | Some cs => existsb (String.eqb s) cs
  end.

(** Typed views of the namespace, for [args.<dest>]. *)
Definition str_attr (ns : namespace) (d : string) : string :=
  match getattr ns d with Some (VStr s) => s | _ => "" end.
Definition int_attr (ns : namespace) (d : string) : Z :=
  match getattr ns d with Some (VInt z) => z | _ => 0 end.
Definition opt_int_attr (ns : namespace) (d : string) : option Z :=
  match getattr ns d with Some (VInt z) => Some z | _ => None end.
Definition num_attr (ns : namespace) (d : string) : pynum :=
  match getattr ns d with Some (VNum x) => x | _ => PyInt 0 end.
Definition bool_attr (ns : namespace) (d : string) : bool :=
  match getattr ns d with Some (VBool b) => b | _ => false end.

Definition args_of (ns : namespace) : Args := {|
  log := str_attr ns "log";
  env_name := str_attr ns "env_name";
  record := bool_attr ns "record";
  episode := int_attr ns "episode";
  seed := int_attr ns "seed";
  max_episodes := int_attr ns "max_episodes";
  num_parallel := int_attr ns "num_parallel";
  local_rank := opt_int_attr ns "local_rank";
  world_size := int_attr ns "world_size";
  max_samples_per_iter := int_attr ns "max_samples_per_iter";
  epoch_per_iter := int_attr ns "epoch_per_iter";
  batch_size := int_attr ns "batch_size";
  pol_lr := num_attr ns "pol_lr";
  vf_lr := num_attr ns "vf_lr";
  ent_beta := num_attr ns "ent_beta";
  h_size := int_attr ns "h_size";
  cell_size := int_attr ns "cell_size";
  ppo_type := str_attr ns "ppo_type";
  clip_param := num_attr ns "clip_param";
  kl_targ := num_attr ns "kl_targ";
  init_kl_beta := num_attr ns "init_kl_beta";
  gamma := num_attr ns "gamma";
  lam := num_attr ns "lam"
|}.

(** [args.seed = s], line 83. *)
Definition set_seed (a : Args) (s : Z) : Args :=
  mkArgs (log a) (env_name a) (record a) (episode a) s (max_episodes a)
         (num_parallel a) (local_rank a) (world_size a)
         (max_samples_per_iter a) (epoch_per_iter a) (batch_size a)
         (pol_lr a) (vf_lr a) (ent_beta a) (h_size a) (cell_size a)
         (ppo_type a) (clip_param a) (kl_targ a) (init_kl_beta a)
         (gamma a) (lam a).

(** ** The arithmetic of the loop body, lines 132-140 *)

Definition len {A} (l : list A) : Z := Z.of_nat (List.length l).

(** [np.arange(n)] *)
Definition arange (n : Z) : list Z := map Z.of_nat (seq 0 (Z.to_nat n)).

(** [inds[mask == 1]]: the entries of [inds] where the mask holds 1. *)
Fixpoint select (inds mask : list Z) : list Z :=
  match inds, mask with
  | i :: inds', m :: mask' =>
    if m =? 1 then i :: select inds' mask' else select inds' mask'
  | _, _ => []
  end.

(** [a[i]] on a one-dimensional array: a negative index counts from the
    end, an index outside the array is an IndexError. *)
Definition getitem (a : list Z) (i : Z) : result Z :=
  let j := if i <? 0 then i + len a else i in
  if (0 <=? j) && (j <? len a) then
    match nth_error a (Z.to_nat j) with
    | Some x => Ok x
    | None => Raise IndexError
    end
  else Raise IndexError.

(** [paths[0]] *)
Definition first_item {A} (l : list A) : result A :=
  match l with
  | x :: _ => Ok x
  | [] => Raise IndexError
  end.

(** [a[lo:hi]]: bounds are counted from the end when negative and clipped
    to the array. *)
Definition slice_bound (n i : Z) : Z :=
  if i <? 0 then Z.max 0 (i + n) else Z.min i n.

Definition slice {A} (a : list A) (lo hi : Z) : list A :=
  let lo' := slice_bound (len a) lo in
  let hi' := slice_bound (len a) hi in
  firstn (Z.to_nat (hi' - lo')) (skipn (Z.to_nat lo') a).

(** The builtin [sum]: start from the [int] 0 and add the items in turn. *)
Definition py_add (x : pynum) (f : float) : pynum :=
  PyFloat (SFadd prec emax (to_float x) f).

Definition py_sum (l : list float) : pynum := fold_left py_add l (PyInt 0).

(** [x / n] for an [int] n.  With an [int] on the left (here always the 0
    that [sum] gives for an empty slice) a zero divisor is a
    ZeroDivisionError; with a numpy float on the left the division goes
    through (to an infinity or a nan). *)
Definition py_truediv (x : pynum) (n : Z) : result pynum :=
  match x with
  | PyInt z =>
    if n =? 0 then Raise ZeroDivisionError
    else Ok (PyFloat (SFdiv prec emax (float_of_int z) (float_of_int n)))
  | PyFloat f => Ok (PyFloat (SFdiv prec emax f (float_of_int n)))
  end.

(** Lines 136-140 for one path. *)
Definition path_reward (p : path) : result pynum :=
  let mask := dones p in
  let inds := arange (len mask) in
  let inds := select inds mask in
  let num_epi := len inds - 1 in
  rbind (getitem inds 0) (fun first =>
  rbind (getitem inds (-1)) (fun last =>
  py_truediv (py_sum (slice (rews p) first last)) num_epi)).

(** Lines 134-140: [rewards] after the [for] loop. *)
Fixpoint path_rewards (paths : list path) : result (list pynum) :=
  match paths with
  | [] => Ok []
  | p :: rest =>
    rbind (path_reward p) (fun r =>
    rbind (path_rewards rest) (fun rs => Ok (r :: rs)))
  end.

(** [d[k]] *)
Fixpoint dict_get (d : result_dict) (k : string) : result pynum :=
  match d with
  | [] => Raise (KeyError k)
  | (k', v) :: rest => if String.eqb k' k then Ok v else dict_get rest k
  end.

(** The variables of the loop, lines 115-118. *)
Record loop_state : Type := mkState {
  total_epi : Z;
  total_step : Z;
  max_rew : float;
  kl_beta : pynum
}.

(** ** Running the script

    A computation takes the history of library calls and gives an outcome
    and the extended history.  [OutOfFuel] stands for a loop that has not
    finished within the iterations allowed. *)

Inductive outcome (A : Type) : Type :=
| Returned (a : A)
| Raised (e : exn)
| OutOfFuel.
Arguments Returned {A} a.
Arguments Raised {A} e.
Arguments OutOfFuel {A}.

Definition M (A : Type) : Type := trace -> outcome A * trace.

Definition ret {A} (a : A) : M A := fun tr => (Returned a, tr).

Definition bind {A B} (m : M A) (f : A -> M B) : M B :=
  fun tr =>
    match m tr with
    | (Returned a, tr') => f a tr'
    | (Raised e, tr') => (Raised e, tr')
    | (OutOfFuel, tr') => (OutOfFuel, tr')
    end.

Notation "x <- m ;; k" := (bind m (fun x => k))
  (at level 100, m at next level, right associativity).
Notation "m ;; k" := (bind m (fun _ => k))
  (at level 100, right associativity).

(** A pure step of the script that may raise. *)
Definition lift {A} (r : result A) : M A :=
  fun tr => match r with Ok a => (Returned a, tr) | Raise e => (Raised e, tr) end.

(** [try: body / except Exception as e: handler(e)]: what the body raises
    is handed to the handler, which goes on from the history reached.  The
    script has no [try] statement, so nothing below is built with it; it
    is what a recovery or a retry would be written with. *)
Definition try_except {A} (body : M A) (handler : exn -> M A) : M A :=
  fun tr =>
    match body tr with
    | (Raised e, tr') => handler e tr'
    | r => r
    end.

Section Script.

Variable W : World.

(** argparse reports every problem through [parser.error], which exits
    with status 2. *)
Definition parser_error {A} : result A := Raise (SystemExit 2).

(** [_get_value]: apply the declared [type] to the argument string. *)
Definition get_value (ty : arg_type) (s : string) : result value :=
  match ty with
  | TStr => Ok (VStr s)
  | TInt => match py_int W s with Some z => Ok (VInt z) | None => parser_error end
  | TFloat =>
    match py_float W s with Some f => Ok (VNum (PyFloat f)) | None => parser_error end
  end.

(** One option occurrence: look the action up, convert, check [choices]
    ([_check_value]), and give the entry to store. *)
Definition take_action (occ : string * option string) : result (string * value) :=
  let (dest, explicit_arg) := occ in
  match find_action dest parser, explicit_arg with
  | Some StoreTrue, None => Ok (dest, VBool true)
  | Some (Store ty choices), Some s =>
    rbind (get_value ty s) (fun v =>
      if in_choices s choices then Ok (dest, v) else parser_error)
  | _, _ => parser_error
  end.

Fixpoint take_actions (occs : list (string * option string)) : result namespace :=
  match occs with
  | [] => Ok []
  | occ :: rest =>
    rbind (take_action occ) (fun e =>
      rbind (take_actions rest) (fun es => Ok (e :: es)))
  end.

(** [parser.parse_args()] on the command line [argv]. *)
Definition parse_args (argv : list string) : result Args :=
  match match_options W argv with
  | None => parser_error
  | Some occs =>
    rbind (take_actions occs) (fun stored => Ok (args_of (defaults ++ stored)))
  end.

(** A library call whose answer the script uses. *)
Definition call_ret {A} (c : call) (answer : trace -> A) : M A :=
  fun tr =>
    match raises W tr c with
    | Some e => (Raised e, tr ++ [c])
    | None => (Returned (answer tr), tr ++ [c])
    end.

(** A library call made for its effect. *)
Definition call_ (c : call) : M unit := call_ret c (fun _ => tt).

(** An attribute of a framework object. *)
Definition read {A} (attr : trace -> A) : M A := fun tr => (Returned (attr tr), tr).

Definition when (b : bool) (m : M unit) : M unit := if b then m else ret tt.

Definition os_path_exists (p : string) : M bool :=
  call_ret (OsPathExists p) (fun tr => path_exists W tr p).

(** [with measure(name): body]: the block is entered, the body runs, and
    the block is left.  Only the normal exit is recorded; when the body
    raises, the exception goes on through the context manager. *)
Definition measure {A} (name : string) (body : M A) : M A :=
  call_ (MeasureEnter name) ;;
  x <- body ;;
  call_ (MeasureExit name) ;;
  ret x.

(** [args.local_rank == 0] *)
Definition is_rank0 (a : Args) : bool :=
  match local_rank a with
  | Some r => r =? 0
  | None => false
  end.

(** *** Lines 72-81: log directory and the dump of the arguments *)

Definition prepare_log (a : Args) : M unit :=
  ex <- os_path_exists (log a) ;;
  when (negb ex) (call_ (OsMkdir (log a))) ;;
  call_ (OpenW (os_path_join (log a) ["args.json"])) ;;
  call_ (JsonDump a (os_path_join (log a) ["args.json"])) ;;
  when (is_rank0 a) (call_ (Pprint a)) ;;
  ex <- os_path_exists (os_path_join (log a) ["models"]) ;;
  when (negb ex) (call_ (OsMkdir (os_path_join (log a) ["models"]))).

(** *** Line 83: [args.seed = args.seed * (args.local_rank + 23)]

    [None + 23] is a TypeError. *)

Definition derive_seed (a : Args) : result Args :=
  match local_rank a with
  | Some r => Ok (set_seed a (seed a * (r + 23)))
  | None => Raise TypeError
  end.

(** *** Lines 85-113: process group, seeds, device, logger, and the objects *)

Definition score_file (a : Args) : string := os_path_join (log a) ["progress.csv"].

(** ["cuda:{}".format(args.local_rank)] *)
Definition device_name (a : Args) : string :=
  ("cuda:" ++ match local_rank a with
              | Some r => string_of_Z r
              | None => "None"
              end)%string.

Definition build (a : Args) : M unit :=
  call_ (InitProcessGroup "nccl" (world_size a) (local_rank a)) ;;
  call_ (NpRandomSeed (seed a)) ;;
  call_ (TorchManualSeed (seed a)) ;;
  call_ (TorchSetNumThreads 1) ;;
  call_ (TorchDevice (device_name a)) ;;
  call_ (SetDevice (device_name a)) ;;
  call_ (AddTabularOutput (score_file a)) ;;
  call_ (MkGymEnv (env_name a) (os_path_join (log a) ["movie"]) (record a)) ;;
  call_ (EnvSeed (seed a)) ;;
  call_ (MkPolNetLSTM (h_size a) (cell_size a)) ;;
  call_ MkGaussianPol ;;
  call_ (MkVNetLSTM (h_size a) (cell_size a)) ;;
  call_ MkDeterministicVfunc ;;
  call_ (MkParallelVectorSampler (max_samples_per_iter a) (num_parallel a) (seed a)) ;;
  call_ (MkDistributedAdamW PolNet (local_rank a) (world_size a) (pol_lr a)) ;;
  call_ (MkDistributedAdamW VfNet (local_rank a) (world_size a) (vf_lr a)).

(** *** Lines 125-129: the PPO update *)

Definition update (a : Args) (kl_beta : pynum) : M (result_dict * pynum) :=
  if String.eqb (ppo_type a) "clip" then
    rd <- call_ret (PpoClipTrain (epoch_per_iter a) (batch_size a)
                                 (clip_param a) (ent_beta a))
                   (train_result W) ;;
    ret (rd, kl_beta)
  else
    rd <- call_ret (PpoKlTrain kl_beta (kl_targ a)
                               (epoch_per_iter a) (batch_size a))
                   (train_result W) ;;
    kb <- lift (dict_get rd "new_kl_beta") ;;
    ret (rd, kb).

(** *** Lines 148-159: checkpoints; gives the new [max_rew] *)

Definition model_file (a : Args) (name : string) : string :=
  os_path_join (log a) ["models"; name].

Definition checkpoint (a : Args) (mean_rew max_rew : float) : M float :=
  max_rew' <-
    (if float_gt mean_rew max_rew then
       call_ (TorchSave Pol (model_file a "pol_max.pkl")) ;;
       call_ (TorchSave Vf (model_file a "vf_max.pkl")) ;;
       call_ (TorchSave OptimPol (model_file a "optim_pol_max.pkl")) ;;
       call_ (TorchSave OptimVf (model_file a "optim_vf_max.pkl")) ;;
       ret mean_rew
     else ret max_rew) ;;
  call_ (TorchSave Pol (model_file a "pol_last.pkl")) ;;
  call_ (TorchSave Vf (model_file a "vf_last.pkl")) ;;
  call_ (TorchSave OptimPol (model_file a "optim_pol_last.pkl")) ;;
  call_ (TorchSave OptimVf (model_file a "optim_vf_last.pkl")) ;;
  ret max_rew'.

(** *** Lines 119-160: one iteration of the loop *)

Definition iteration (a : Args) (st : loop_state) : M loop_state :=
  paths <- measure "sample" (call_ret SamplerSample (sampled_paths W)) ;;
  trained <- measure "train" (
    call_ (MkGAEVectorData paths) ;;
    call_ (Preprocess (gamma a) (lam a) true) ;;
    update a (kl_beta st)) ;;
  let (result_dict, kl_beta') := trained in
  num_epi <- read (data_num_epi W) ;;
  let total_epi' := total_epi st + num_epi in
  path0 <- lift (first_item paths) ;;
  let step := len paths * len (rews path0) * world_size a in
  let total_step' := total_step st + step in
  rewards <- lift (path_rewards paths) ;;
  let mean_rew := np_mean W rewards in
  when (is_rank0 a)
       (call_ (RecordResults (log a) result_dict (score_file a)
                             total_epi' step total_step' rewards (env_name a))) ;;
  max_rew' <- (if is_rank0 a then checkpoint a mean_rew (max_rew st)
               else ret (max_rew st)) ;;
  ret {| total_epi := total_epi';
         total_step := total_step';
         max_rew := max_rew';
         kl_beta := kl_beta' |}.

(** *** Lines 115-119: the loop, for at most [fuel] iterations *)

Definition init_state (a : Args) : loop_state :=
  {| total_epi := 0;
     total_step := 0;
     max_rew := f_minus_1e6;
     kl_beta := init_kl_beta a |}.

Fixpoint train_loop (fuel : nat) (a : Args) (st : loop_state) : M loop_state :=
  if max_episodes a >? total_epi st then
    match fuel with
    | O => fun tr => (OutOfFuel, tr)
    | S fuel' => st' <- iteration a st ;; train_loop fuel' a st'
    end
  else ret st.

(** *** The whole script *)

Definition configure (args : Args) : M Args :=
  prepare_log args ;;
  args <- lift (derive_seed args) ;;
  build args ;;
  ret args.

Definition main (fuel : nat) (argv : list string) : M loop_state :=
  args <- lift (parse_args argv) ;;
  args <- configure args ;;
  train_loop fuel args (init_state args).

End Script.

(** ** Properties of traces

    A monitor is a transition relation [delta] over the library calls; a
    list of calls is admitted from [s] to [s'] when the monitor can follow
    it.  [obeys delta s m Q] says that, whatever the history, the calls
    that [m] adds are admitted from [s], and that [Q] holds of the value
    and the monitor state when [m] returns. *)

Section Monitor.

Variable S : Type.
Variable delta : S -> call -> S -> Prop.

Fixpoint steps (s : S) (ev : list call) (s' : S) : Prop :=
  match ev with
  | [] => s' = s
  | c :: ev' => exists s1, delta s c s1 /\ steps s1 ev' s'
  end.

Definition obeys {A} (s : S) (m : M A) (Q : A -> S -> Prop) : Prop :=
  forall tr, exists ev s',
    snd (m tr) = tr ++ ev /\ steps s ev s' /\
    forall a, fst (m tr) = Returned a -> Q a s'.

End Monitor.

(** *** The order of the phases *)

Inductive phase : Type :=
| Configuration     (* log directory, dump of the arguments *)
| GroupInit         (* dist.init_process_group *)
| Construction      (* seeds, device, logger output, then the objects *)
| Sampling
| Preprocessing
| Updating
| Logging
| Checkpointing.

Definition phase_of (c : call) : phase :=
  match c with
  | OsPathExists _ | OsMkdir _ | OpenW _ | JsonDump _ _ | Pprint _ => Configuration
  | InitProcessGroup _ _ _ => GroupInit
  | NpRandomSeed _ | TorchManualSeed _ | TorchSetNumThreads _
  | TorchDevice _ | SetDevice _ | AddTabularOutput _
  | MkGymEnv _ _ _ | EnvSeed _ | MkPolNetLSTM _ _ | MkGaussianPol
  | MkVNetLSTM _ _ | MkDeterministicVfunc
  | MkParallelVectorSampler _ _ _ | MkDistributedAdamW _ _ _ _ => Construction
  | SamplerSample => Sampling
  | MeasureEnter name =>
    if String.eqb name "sample" then Sampling else Preprocessing
  | MeasureExit name =>
    if String.eqb name "sample" then Sampling else Updating
  | MkGAEVectorData _ | Preprocess _ _ _ => Preprocessing
  | PpoClipTrain _ _ _ _ | PpoKlTrain _ _ _ _ => Updating
  | RecordResults _ _ _ _ _ _ _ _ => Logging
  | TorchSave _ _ => Checkpointing
  end.

(** May a call of phase [q] come directly after a call of phase [p]
    ([None]: nothing was called yet)?  A phase may go on, or hand over to
    the next one; no phase is skipped.  [logs] tells whether the
    iterations end with logging and checkpointing or with the update. *)
Definition may_follow (logs : bool) (p : option phase) (q : phase) : bool :=
  match p, q with
  | None, Configuration => true
  | Some Configuration, Configuration => true
  | Some Configuration, GroupInit => true
  | Some GroupInit, Construction => true
  | Some Construction, Construction => true
  | Some Construction, Sampling => true
  | Some Sampling, Sampling => true
  | Some Sampling, Preprocessing => true
  | Some Preprocessing, Preprocessing => true
  | Some Preprocessing, Updating => true
  | Some Updating, Updating => true
  | Some Updating, Logging => logs
  | Some Updating, Sampling => negb logs
  | Some Logging, Checkpointing => true
  | Some Checkpointing, Checkpointing => true
  | Some Checkpointing, Sampling => true
  | _, _ => false
  end.

Fixpoint run_phases (logs : bool) (p : option phase) (tr : trace)
  : option (option phase) :=
  match tr with
  | [] => Some p
  | c :: tr' =>
    if may_follow logs p (phase_of c) then run_phases logs (Some (phase_of c)) tr'
    else None
  end.

(** The trace is in the order of the phases. *)
Definition in_order (logs : bool) (tr : trace) : bool :=
  match run_phases logs None tr with
  | Some _ => true
  | None => false
  end.

Definition phase_step (logs : bool) (p : option phase) (c : call) (q : option phase) : Prop :=
  may_follow logs p (phase_of c) = true /\ q = Some (phase_of c).

(** ** The vocabulary of the statements *)

(** The phase in which an iteration ends. *)
Definition end_phase (logs : bool) : phase :=
  if logs then Checkpointing else Updating.

(** What an iteration started after the history [tr] sees and calls. *)
Definition iteration_paths (W : World) (tr : trace) : list path :=
  sampled_paths W (tr ++ [MeasureEnter "sample"]).

Definition train_call (a : Args) (kl_beta0 : pynum) : call :=
  if String.eqb (ppo_type a) "clip" then
    PpoClipTrain (epoch_per_iter a) (batch_size a) (clip_param a) (ent_beta a)
  else
    PpoKlTrain kl_beta0 (kl_targ a) (epoch_per_iter a) (batch_size a).

(** The calls of an iteration up to the update. *)
Definition before_update (W : World) (a : Args) (tr : trace) : list call :=
  [MeasureEnter "sample"; SamplerSample; MeasureExit "sample";
   MeasureEnter "train"; MkGAEVectorData (iteration_paths W tr);
   Preprocess (gamma a) (lam a) true].

Definition iteration_result (W : World) (a : Args) (tr : trace) : result_dict :=
  train_result W (tr ++ before_update W a tr).

Definition through_update (W : World) (a : Args) (st : loop_state) (tr : trace)
  : list call :=
  before_update W a tr ++ [train_call a (kl_beta st); MeasureExit "train"].

Definition best_calls (a : Args) : list call :=
  [TorchSave Pol (model_file a "pol_max.pkl");
   TorchSave Vf (model_file a "vf_max.pkl");
   TorchSave OptimPol (model_file a "optim_pol_max.pkl");
   TorchSave OptimVf (model_file a "optim_vf_max.pkl")].

Definition last_calls (a : Args) : list call :=
  [TorchSave Pol (model_file a "pol_last.pkl");
   TorchSave Vf (model_file a "vf_last.pkl");
   TorchSave OptimPol (model_file a "optim_pol_last.pkl");
   TorchSave OptimVf (model_file a "optim_vf_last.pkl")].

(** The calls of lines 72-81; [mk_log] and [mk_models] tell whether the
    two directories were made. *)
Definition config_calls (a : Args) (mk_log mk_models : bool) : list call :=
  [OsPathExists (log a)] ++
  (if mk_log then [OsMkdir (log a)] else []) ++
  [OpenW (os_path_join (log a) ["args.json"]);
   JsonDump a (os_path_join (log a) ["args.json"])] ++
  (if is_rank0 a then [Pprint a] else []) ++
  [OsPathExists (os_path_join (log a) ["models"])] ++
  (if mk_models then [OsMkdir (os_path_join (log a) ["models"])] else []).

(** The calls of lines 85-113: the process group first, then the
    construction. *)
Definition build_calls (a : Args) : list call :=
  [InitProcessGroup "nccl" (world_size a) (local_rank a);
   NpRandomSeed (seed a);
   TorchManualSeed (seed a);
   TorchSetNumThreads 1;
   TorchDevice (device_name a);
   SetDevice (device_name a);
   AddTabularOutput (score_file a);
   MkGymEnv (env_name a) (os_path_join (log a) ["movie"]) (record a);
   EnvSeed (seed a);
   MkPolNetLSTM (h_size a) (cell_size a);
   MkGaussianPol;
   MkVNetLSTM (h_size a) (cell_size a);
   MkDeterministicVfunc;
   MkParallelVectorSampler (max_samples_per_iter a) (num_parallel a) (seed a);
   MkDistributedAdamW PolNet (local_rank a) (world_size a) (pol_lr a);
   MkDistributedAdamW VfNet (local_rank a) (world_size a) (vf_lr a)].

(** The calls of one whole iteration: the sample, the GAE data and its
    preprocessing, the update, and, on the process of rank 0, the record
    of the results and the checkpoints ([best]: the best-reward files are
    among them). *)
Definition iteration_block (a : Args) (paths : list path) (kl_beta0 : pynum)
           (record : call) (best : bool) : list call :=
  [MeasureEnter "sample"; SamplerSample; MeasureExit "sample";
   MeasureEnter "train"; MkGAEVectorData paths;
   Preprocess (gamma a) (lam a) true;
   train_call a kl_beta0; MeasureExit "train"] ++
  (if is_rank0 a
   then record :: (if best then best_calls a else []) ++ last_calls a
   else []).

(** [ev] is such a block, its record being a [logger.record_results]. *)
Definition performs (a : Args) (ev : list call) : Prop :=
  exists paths kl_beta0 record best,
    phase_of record = Logging /\
    ev = iteration_block a paths kl_beta0 record best.

(** The file [name] directly under [<log>/models]. *)
Definition under_models (a : Args) (name : string) : string :=
  (os_path_join (log a) ["models"] ++ "/" ++ name)%string.

(** The targets of the [torch.save] calls in a list of calls, in order. *)
Fixpoint saved (ev : list call) : list (obj * string) :=
  match ev with
  | [] => []
  | TorchSave o p :: ev' => (o, p) :: saved ev'
  | _ :: ev' => saved ev'
  end.

Definition best_files (a : Args) : list (obj * string) :=
  [(Pol, under_models a "pol_max.pkl");
   (Vf, under_models a "vf_max.pkl");
   (OptimPol, under_models a "optim_pol_max.pkl");
   (OptimVf, under_models a "optim_vf_max.pkl")].

Definition last_files (a : Args) : list (obj * string) :=
  [(Pol, under_models a "pol_last.pkl");
   (Vf, under_models a "vf_last.pkl");
   (OptimPol, under_models a "optim_pol_last.pkl");
   (OptimVf, under_models a "optim_vf_last.pkl")].

(** The mean reward of the iteration started after [tr]: [np.mean] of the
    per-path rewards of the paths it samples. *)
Definition iteration_mean_rew (W : World) (tr : trace) : result float :=
  rbind (path_rewards (iteration_paths W tr)) (fun rs => Ok (np_mean W rs)).

(** The update calls in a list of calls. *)
Fixpoint train_calls (ev : list call) : list call :=
  match ev with
  | [] => []
  | PpoClipTrain e b c x :: ev' => PpoClipTrain e b c x :: train_calls ev'
  | PpoKlTrain k t e b :: ev' => PpoKlTrain k t e b :: train_calls ev'
  | _ :: ev' => train_calls ev'
  end.

(** A computation without a loop does not run out of fuel. *)
Definition halts {A} (m : M A) : Prop :=
  forall tr, fst (m tr) <> OutOfFuel.

(** The number of entries of [path['dones']] that are 1. *)
Definition done_flags (p : path) : Z :=
  len (filter (fun m => m =? 1) (dones p)).

(** The positions of these entries: [inds] of line 138. *)
Definition done_indices (p : path) : list Z :=
  select (arange (len (dones p))) (dones p).

(** [m] is the greatest entry of [l]; a nan entry compares with nothing and
    is left aside. *)
Definition is_maximum (m : float) (l : list float) : Prop :=
  In m l /\ forall x, In x l -> is_nan x = false -> float_le x m = true.

(** [iterations W a st tr means st' tr']: starting in state [st] after the
    history [tr], the loop body has run and returned once for every entry
    of [means], its mean rewards in turn, and has reached [st'], [tr']. *)
Inductive iterations (W : World) (a : Args) (st : loop_state) (tr : trace)
  : list float -> loop_state -> trace -> Prop :=
| iterations_none : iterations W a st tr [] st tr
| iterations_more means st1 tr1 mean_rew st2 tr2 :
    iterations W a st tr means st1 tr1 ->
    iteration W a st1 tr1 = (Returned st2, tr2) ->
    iteration_mean_rew W tr1 = Ok mean_rew ->
    iterations W a st tr (means ++ [mean_rew]) st2 tr2.

(** A monitor that follows the calls selected by [sel] along the list it
    expects: its state is what is still expected. *)
Definition expecting (sel : call -> bool) (rem : list call) (c : call)
           (rem' : list call) : Prop :=
  if sel c then rem = c :: rem' else rem' = rem.

(** The calls that concern the process group. *)
Definition is_dist_call (c : call) : bool :=
  match c with
  | InitProcessGroup _ _ _ | MkDistributedAdamW _ _ _ _ => true
  | _ => false
  end.

Definition dist_calls (a : Args) : list call :=
  [InitProcessGroup "nccl" (world_size a) (local_rank a);
   MkDistributedAdamW PolNet (local_rank a) (world_size a) (pol_lr a);
   MkDistributedAdamW VfNet (local_rank a) (world_size a) (vf_lr a)].

(** The calls that seed a generator or construct a component. *)
Definition is_seed_or_component (c : call) : bool :=
  match c with
  | NpRandomSeed _ | TorchManualSeed _ | EnvSeed _
  | MkGymEnv _ _ _ | MkPolNetLSTM _ _ | MkGaussianPol | MkVNetLSTM _ _
  | MkDeterministicVfunc | MkParallelVectorSampler _ _ _
  | MkDistributedAdamW _ _ _ _ => true
  | _ => false
  end.

(** These calls as the script makes them, with [s] for the seed. *)
Definition seeded_components (a : Args) (s : Z) : list call :=
  [NpRandomSeed s;
   TorchManualSeed s;
   MkGymEnv (env_name a) (os_path_join (log a) ["movie"]) (record a);
   EnvSeed s;
   MkPolNetLSTM (h_size a) (cell_size a);
   MkGaussianPol;
   MkVNetLSTM (h_size a) (cell_size a);
   MkDeterministicVfunc;
   MkParallelVectorSampler (max_samples_per_iter a) (num_parallel a) s;
   MkDistributedAdamW PolNet (local_rank a) (world_size a) (pol_lr a);
   MkDistributedAdamW VfNet (local_rank a) (world_size a) (vf_lr a)].

(** The paths a call creates or writes, or names to the framework as the
    place to write to. *)
Definition output_paths (c : call) : list string :=
  match c with
  | OsMkdir p => [p]                          (* the directory made *)
  | OpenW p => [p]                            (* the file opened for writing *)
  | JsonDump _ p => [p]
  | AddTabularOutput p => [p]                 (* the logger's CSV *)
  | TorchSave _ p => [p]
  | MkGymEnv _ log_dir _ => [log_dir]         (* the monitor's directory *)
  | RecordResults log_dir _ csv _ _ _ _ _ => [log_dir; csv]
  | _ => []
  end.

(** The ten files of the claim. *)
Definition output_files (a : Args) : list string :=
  [os_path_join (log a) ["args.json"];
   score_file a;
   model_file a "pol_max.pkl";
   model_file a "vf_max.pkl";
   model_file a "optim_pol_max.pkl";
   model_file a "optim_vf_max.pkl";
   model_file a "pol_last.pkl";
   model_file a "vf_last.pkl";
   model_file a "optim_pol_last.pkl";
   model_file a "optim_vf_last.pkl"].

(** The directories the script makes or names. *)
Definition output_dirs (a : Args) : list string :=
  [log a; os_path_join (log a) ["models"]; os_path_join (log a) ["movie"]].

Definition writes_within (allowed : list string) (s : unit) (c : call) (s' : unit)
  : Prop :=
  Forall (fun p => In p allowed) (output_paths c) /\ s' = s.

(** No call in the history raised. *)
Definition clean (W : World) (tr : trace) : Prop :=
  forall tr0 c rest, tr = tr0 ++ c :: rest -> raises W tr0 c = None.

(** [m] hands on what a library call raises, at once: started after a clean
    history it either keeps the history clean or stops with the exception
    of its last call. *)
Definition propagates {A} (W : World) (m : M A) : Prop :=
  forall tr, clean W tr ->
    match m tr with
    | (Raised e, tr') =>
      clean W tr' \/
      exists tr1 c, tr' = tr1 ++ [c] /\ clean W tr1 /\ raises W tr1 c = Some e
    | (_, tr') => clean W tr'
    end.

(** In a world where no call raises, [m] returns. *)
Definition returns {A} (m : M A) : Prop :=
  forall tr, exists a tr', m tr = (Returned a, tr').

(** ** Further vocabulary *)

(** A monitor that admits the calls satisfying [P]. *)
Definition only (P : call -> Prop) (s : unit) (c : call) (s' : unit) : Prop :=
  P c /\ s' = s.

(** A call of the logging or checkpointing kind. *)
Definition logs_or_saves (c : call) : bool :=
  match c with
  | RecordResults _ _ _ _ _ _ _ _ | TorchSave _ _ => true
  | _ => false
  end.

(** The keys of a result dictionary. *)
Definition keys (d : result_dict) : list string := map fst d.

(** The number of rewards in a list of paths. *)
Definition samples (paths : list path) : Z :=
  fold_right (fun p n => len (rews p) + n) 0 paths.

(** The calls the script makes on the process of rank 0 only. *)
Definition rank0_only (c : call) : bool :=
  match c with
  | Pprint _ | RecordResults _ _ _ _ _ _ _ _ | TorchSave _ _ => true
  | _ => false
  end.

(** Every [os.mkdir(p)] in the history comes right after an
    [os.path.exists(p)] that answered [False]. *)
Definition mkdir_guarded (W : World) (tr : trace) : Prop :=
  forall h p rest,
    tr = h ++ OsMkdir p :: rest ->
    exists h0, h = h0 ++ [OsPathExists p] /\
               raises W h0 (OsPathExists p) = None /\
               path_exists W h0 p = false.

(** [Q] holds of the value and history when [m] returns after [tr], [R] of
    the history when it does not. *)
Definition wp {A} (m : M A) (Q : A -> trace -> Prop) (R : trace -> Prop)
           (tr : trace) : Prop :=
  match m tr with
  | (Returned a, tr') => Q a tr'
  | (_, tr') => R tr'
  end.

(** The calls that select the device use the name [d]. *)
Definition on_device (d : string) (c : call) : Prop :=
  match c with
  | TorchDevice x | SetDevice x => x = d
  | _ => True
  end.

Definition is_mkdir (c : call) : bool :=
  match c with
  | OsMkdir _ => true
  | _ => false
  end.

(** ** A concrete world, for running the model

    No call raises, no path exists yet, every sample is the list [paths]
    with [n] episodes, every update returns [rd]. *)

Module Demo.

Definition strip_dashes (s : string) : string :=
  match s with
  | String "-" (String "-" rest) => rest
  | _ => s
  end.

(** Tokens in the plain form [--dest value], [--record] alone. *)
Fixpoint pair_options (argv : list string) : option (list (string * option string)) :=
  match argv with
  | [] => Some []
  | "--record" :: rest =>
    option_map (cons ("record", None)) (pair_options rest)
  | opt :: v :: rest =>
    option_map (cons (strip_dashes opt, Some v)) (pair_options rest)
  | [_] => None
  end.

Definition int_of_string (s : string) : option Z :=
  option_map Z.of_int (NilZero.int_of_string s).

Definition mean (l : list pynum) : float :=
  SFdiv prec emax
        (fold_left (fun acc x => SFadd prec emax acc (to_float x)) l (S754_zero false))
        (float_of_int (len l)).

Definition world (paths : list path) (n : Z) (rd : result_dict) : World := {|
  py_int := int_of_string;
  py_float := fun _ => None;
  match_options := pair_options;
  np_mean := mean;
  raises := fun _ _ => None;
  path_exists := fun _ _ => false;
  sampled_paths := fun _ => paths;
  data_num_epi := fun _ => n;
  train_result := fun _ => rd
|}.

(** The defaults, with [--local_rank r]. *)
Definition args_rank (r : Z) : Args := args_of (defaults ++ [("local_rank", VInt r)]).

(** The same with [--ppo_type kl]. *)
Definition args_kl (r : Z) : Args :=
  args_of (defaults ++ [("local_rank", VInt r); ("ppo_type", VStr "kl")]).

(** The defaults, with [--local_rank r --max_episodes 2]. *)
Definition args_short (r : Z) : Args :=
  args_of (defaults ++ [("local_rank", VInt r); ("max_episodes", VInt 2)]).

(** The value a run returned ([d] if it did not return). *)
Definition value_of {A} (d : A) (r : outcome A * trace) : A :=
  match fst r with
  | Returned x => x
  | _ => d
  end.

(** The same world, except that [sampler.sample] raises. *)
Definition failing_world (paths : list path) (n : Z) (rd : result_dict) : World := {|
  py_int := int_of_string;
  py_float := fun _ => None;
  match_options := pair_options;
  np_mean := mean;
  raises := fun _ c =>
    match c with
    | SamplerSample => Some (LibraryError "sampler")
    | _ => None
    end;
  path_exists := fun _ _ => false;
  sampled_paths := fun _ => paths;
  data_num_epi := fun _ => n;
  train_result := fun _ => rd
|}.

Definition f1 : float := float_of_int 1.
Definition f2 : float := float_of_int 2.

(** Two episodes ending at steps 0 and 3: rewards 1 + 2 + 1 over one
    full episode between the first and the last done flag. *)
Definition path_a : path := mkPath [f1; f2; f1; f2] [1; 0; 0; 1].

End Demo.

(** * Proofs *)

(** ** The monitor rules *)

Section MonitorRules.

Variable W : World.
Variable S : Type.
Variable delta : S -> call -> S -> Prop.

Lemma steps_app s ev1 s1 ev2 s2 :
  steps S delta s ev1 s1 -> steps S delta s1 ev2 s2 ->
  steps S delta s (ev1 ++ ev2) s2.
Proof.
  revert s. induction ev1 as [|c ev1 IH]; simpl; intros s H1 H2.
  - subst. exact H2.
  - destruct H1 as (s0 & Hd & H1). exists s0. split; [exact Hd|]. now apply IH.
Qed.

Lemma obeys_ret {A} s (a : A) (Q : A -> S -> Prop) :
  Q a s -> obeys S delta s (ret a) Q.
Proof.
  intros HQ tr. exists [], s. simpl. rewrite app_nil_r.
  repeat split. intros a' [= <-]. exact HQ.
Qed.

Lemma obeys_lift {A} s (r : result A) (Q : A -> S -> Prop) :
  (forall a, r = Ok a -> Q a s) -> obeys S delta s (lift r) Q.
Proof.
  intros HQ tr. exists [], s. unfold lift. destruct r; simpl; rewrite app_nil_r.
  - repeat split. intros a' [= <-]. now apply HQ.
  - repeat split. discriminate.
Qed.

Lemma obeys_read {A} s (attr : trace -> A) (Q : A -> S -> Prop) :
  (forall a, Q a s) -> obeys S delta s (read attr) Q.
Proof.
  intros HQ tr. exists [], s. simpl. rewrite app_nil_r.
  repeat split. intros a' _. apply HQ.
Qed.

Lemma obeys_stop {A} s (Q : A -> S -> Prop) :
  obeys S delta s (fun tr => (OutOfFuel, tr)) Q.
Proof.
  intros tr. exists [], s. simpl. rewrite app_nil_r. repeat split. discriminate.
Qed.

Lemma obeys_call {A} s c (answer : trace -> A) (Q : A -> S -> Prop) :
  (exists s1, delta s c s1 /\ forall a, Q a s1) ->
  obeys S delta s (call_ret W c answer) Q.
Proof.
  intros (s1 & Hd & HQ) tr. exists [c], s1. unfold call_ret.
  destruct (raises W tr c); simpl; (split; [reflexivity|]);
    (split; [exists s1; auto|]); intros a' _; apply HQ.
Qed.

Lemma obeys_bind {A B} s (m : M A) (f : A -> M B) (R : B -> S -> Prop) :
  obeys S delta s m (fun a s1 => obeys S delta s1 (f a) R) ->
  obeys S delta s (bind m f) R.
Proof.
  intros Hm tr. destruct (Hm tr) as (ev1 & s1 & Htr & Hst & Hk).
  unfold bind. destruct (m tr) as [[a | e |] tr1]; simpl in *; subst tr1.
  - destruct (Hk a eq_refl (tr ++ ev1)) as (ev2 & s2 & Htr2 & Hst2 & HR).
    exists (ev1 ++ ev2), s2. rewrite app_assoc. split; [exact Htr2|].
    split; [eapply steps_app; eauto | exact HR].
  - exists ev1, s1. repeat split; auto. discriminate.
  - exists ev1, s1. repeat split; auto. discriminate.
Qed.

Lemma obeys_conseq {A} s (m : M A) (Q Q' : A -> S -> Prop) :
  obeys S delta s m Q -> (forall a s', Q a s' -> Q' a s') ->
  obeys S delta s m Q'.
Proof.
  intros Hm HQ tr. destruct (Hm tr) as (ev & s' & ? & ? & H).
  exists ev, s'. repeat split; auto.
Qed.

(** The loop keeps whatever every iteration keeps. *)
Lemma obeys_train_loop (I : S -> Prop) a :
  (forall st s, I s -> obeys S delta s (iteration W a st) (fun _ s' => I s')) ->
  forall fuel st s, I s ->
    obeys S delta s (train_loop W fuel a st) (fun _ s' => I s').
Proof.
  intros Hit. induction fuel as [|fuel IH]; intros st s Hs; simpl.
  - destruct (max_episodes a >? total_epi st).
    + apply obeys_stop.
    + now apply obeys_ret.
  - destruct (max_episodes a >? total_epi st).
    + apply obeys_bind. eapply obeys_conseq; [now apply Hit|].
      intros st' s' Hs'. now apply IH.
    + now apply obeys_ret.
Qed.

(** What [obeys] gives for one run. *)
Lemma obeys_run {A} s (m : M A) Q tr o tr' :
  obeys S delta s m Q -> m tr = (o, tr') ->
  exists ev s', tr' = tr ++ ev /\ steps S delta s ev s' /\
                forall a, o = Returned a -> Q a s'.
Proof.
  intros Hm E. destruct (Hm tr) as (ev & s' & H1 & H2 & H3).
  rewrite E in *. simpl in *. eauto.
Qed.

End MonitorRules.

(** Walking through a computation, one construct at a time.  [tac] proves
    the monitor's transition at each call. *)
Ltac obey_step tac :=
  lazymatch goal with
  | |- obeys _ _ _ (bind _ _) _ => apply obeys_bind
  | |- obeys _ _ _ (ret _) _ => apply obeys_ret
  | |- obeys _ _ _ (call_ret _ _ _) _ =>
    apply obeys_call; eexists; split; [tac | intros ?]
  | |- obeys _ _ _ (call_ _ _) _ =>
    apply obeys_call; eexists; split; [tac | intros ?]
  | |- obeys _ _ _ (os_path_exists _ _) _ =>
    apply obeys_call; eexists; split; [tac | intros ?]
  | |- obeys _ _ _ (lift _) _ => apply obeys_lift; intros ? ?
  | |- obeys _ _ _ (read _) _ => apply obeys_read; intros ?
  | |- obeys _ _ _ (when _ _) _ => unfold when
  | |- obeys _ _ _ (measure _ _ _) _ => unfold measure
  | |- obeys _ _ _ (if ?b then _ else _) _ =>
    first [is_constructor b; cbv iota | destruct b eqn:?]
  | |- obeys _ _ _ (let (_, _) := ?p in _) _ => destruct p
  end.

Ltac obey tac := repeat (obey_step tac).

Ltac phase_tac := split; reflexivity.

Section PhaseOrder.

Variable W : World.
Variable logs : bool.

Lemma prepare_log_order a :
  obeys _ (phase_step logs) None (prepare_log W a)
        (fun _ p => p = Some Configuration).
Proof. unfold prepare_log. obey phase_tac; reflexivity. Qed.

Lemma build_order a :
  obeys _ (phase_step logs) (Some Configuration) (build W a)
        (fun _ p => p = Some Construction).
Proof. unfold build. obey phase_tac; reflexivity. Qed.

End PhaseOrder.

Lemma iteration_order W a st p :
  p = Some Construction \/ p = Some (end_phase (is_rank0 a)) ->
  obeys _ (phase_step (is_rank0 a)) p (iteration W a st)
        (fun _ q => q = Some Construction \/ q = Some (end_phase (is_rank0 a))).
Proof.
  unfold iteration, update, checkpoint, end_phase.
  destruct (is_rank0 a); intros [-> | ->];
    obey phase_tac; right; reflexivity.
Qed.

Lemma derive_seed_rank a a' :
  derive_seed a = Ok a' -> is_rank0 a' = is_rank0 a.
Proof.
  unfold derive_seed. destruct (local_rank a) eqn:E; [|discriminate].
  intros [= <-]. unfold is_rank0. simpl. now rewrite E.
Qed.

Lemma main_order W fuel argv a :
  parse_args W argv = Ok a ->
  obeys _ (phase_step (is_rank0 a)) None (main W fuel argv)
        (fun _ q => q = Some Construction \/ q = Some (end_phase (is_rank0 a))).
Proof.
  intros Hp. unfold main, configure. rewrite Hp.
  apply obeys_bind, obeys_lift. intros a0 [= <-].
  apply obeys_bind, obeys_bind.
  eapply obeys_conseq; [apply prepare_log_order|].
  intros _ p ->. apply obeys_bind, obeys_lift. intros a' Ha'.
  rewrite <- (derive_seed_rank _ _ Ha').
  apply obeys_bind.
  eapply obeys_conseq; [apply build_order|].
  intros _ p ->. apply obeys_ret.
  apply (obeys_train_loop W _ _
           (fun q => q = Some Construction \/ q = Some (end_phase (is_rank0 a')))).
  - intros st s Hs. now apply iteration_order.
  - now left.
Qed.

Lemma steps_run_phases logs ev : forall p q,
  steps _ (phase_step logs) p ev q -> run_phases logs p ev = Some q.
Proof.
  induction ev as [|c ev IH]; simpl; intros p q H.
  - now subst.
  - destruct H as (p1 & [Hm ->] & H). rewrite Hm. now apply IH.
Qed.

(** C4, as stated, fails: the process of rank 1 goes from the update of one
    iteration straight to the sampling of the next, so its trace is not in
    the order "sample, preprocess, update, log, checkpoint". *)
Lemma C4_rank1_counterexample :
  let W := Demo.world [Demo.path_a] 1 [] in
  let run := main W 5 ["--local_rank"; "1"; "--max_episodes"; "2"] [] in
  (exists st, fst run = Returned st /\ total_epi st = 2) /\
  in_order true (snd run) = false /\
  (forall c, In c (snd run) -> phase_of c <> Logging /\ phase_of c <> Checkpointing).
Proof.
  cbv zeta. split; [|split].
  - exists (Demo.value_of (init_state (Demo.args_rank 1))
                          (main (Demo.world [Demo.path_a] 1 []) 5
                                ["--local_rank"; "1"; "--max_episodes"; "2"] [])).
    split; vm_compute; reflexivity.
  - vm_compute. reflexivity.
  - apply Forall_forall. vm_compute.
    repeat (constructor; [split; discriminate|]). constructor.
Qed.

(** ** Runs that return *)

Lemma bind_returned {A B} (m : M A) (f : A -> M B) tr b tr' :
  bind m f tr = (Returned b, tr') ->
  exists a tr1, m tr = (Returned a, tr1) /\ f a tr1 = (Returned b, tr').
Proof.
  unfold bind. destruct (m tr) as [[a | e |] tr1]; intros H;
    [eauto | discriminate | discriminate].
Qed.

Lemma ret_returned {A} (a : A) tr b tr' :
  ret a tr = (Returned b, tr') -> b = a /\ tr' = tr.
Proof. unfold ret. intros [= <- <-]. auto. Qed.

Lemma lift_returned {A} (r : result A) tr b tr' :
  lift r tr = (Returned b, tr') -> r = Ok b /\ tr' = tr.
Proof. unfold lift. destruct r; intros [= <- <-]. auto. Qed.

Lemma read_returned {A} (attr : trace -> A) tr b tr' :
  read attr tr = (Returned b, tr') -> b = attr tr /\ tr' = tr.
Proof. unfold read. intros [= <- <-]. auto. Qed.

Lemma call_ret_returned {A} W c (answer : trace -> A) tr b tr' :
  call_ret W c answer tr = (Returned b, tr') ->
  raises W tr c = None /\ b = answer tr /\ tr' = tr ++ [c].
Proof.
  unfold call_ret. destruct (raises W tr c); [discriminate|].
  intros [= <- <-]. auto.
Qed.

(** Taking a returning run apart, construct by construct. *)
Ltac inv_run :=
  repeat match goal with
  | H : bind _ _ _ = (Returned _, _) |- _ =>
    apply bind_returned in H; destruct H as (? & ? & ? & H)
  | H : ret _ _ = (Returned _, _) |- _ =>
    apply ret_returned in H; destruct H as [? ?]; subst
  | H : lift _ _ = (Returned _, _) |- _ =>
    apply lift_returned in H; destruct H as [? ?]; subst
  | H : read _ _ = (Returned _, _) |- _ =>
    apply read_returned in H; destruct H as [? ?]; subst
  | H : call_ret _ _ _ _ = (Returned _, _) |- _ =>
    apply call_ret_returned in H; destruct H as (? & ? & ?); subst
  | H : call_ _ _ _ = (Returned _, _) |- _ =>
    apply call_ret_returned in H; destruct H as (? & ? & ?); subst
  | H : measure _ _ _ _ = (Returned _, _) |- _ => unfold measure in H
  | H : when _ _ _ = (Returned _, _) |- _ => unfold when in H
  | H : (let (_, _) := ?p in _) _ = (Returned _, _) |- _ => destruct p
  end.

Ltac flatten_trace :=
  repeat rewrite <- app_assoc; simpl app.

Lemma checkpoint_returned W a mean_rew max_rew0 tr m tr' :
  checkpoint W a mean_rew max_rew0 tr = (Returned m, tr') ->
  m = (if float_gt mean_rew max_rew0 then mean_rew else max_rew0) /\
  tr' = tr ++
    (if float_gt mean_rew max_rew0 then
       [TorchSave Pol (model_file a "pol_max.pkl");
        TorchSave Vf (model_file a "vf_max.pkl");
        TorchSave OptimPol (model_file a "optim_pol_max.pkl");
        TorchSave OptimVf (model_file a "optim_vf_max.pkl")]
     else []) ++
    [TorchSave Pol (model_file a "pol_last.pkl");
     TorchSave Vf (model_file a "vf_last.pkl");
     TorchSave OptimPol (model_file a "optim_pol_last.pkl");
     TorchSave OptimVf (model_file a "optim_vf_last.pkl")].
Proof.
  unfold checkpoint. intros H.
  destruct (float_gt mean_rew max_rew0); inv_run; flatten_trace; auto.
Qed.

Lemma update_returned W a kb tr rd kb' tr' :
  update W a kb tr = (Returned (rd, kb'), tr') ->
  rd = train_result W tr /\
  tr' = tr ++ [train_call a kb] /\
  (if String.eqb (ppo_type a) "clip" then kb' = kb
   else dict_get rd "new_kl_beta" = Ok kb').
Proof.
  unfold update, train_call. intros H.
  destruct (String.eqb (ppo_type a) "clip"); inv_run;
    match goal with H : (_, _) = (_, _) |- _ => inversion H; subst end; auto.
Qed.

(** Everything about an iteration that returns. *)
Lemma iteration_returned W a st tr st' tr' :
  iteration W a st tr = (Returned st', tr') ->
  exists path0 rewards,
    first_item (iteration_paths W tr) = Ok path0 /\
    path_rewards (iteration_paths W tr) = Ok rewards /\
    total_epi st' =
      total_epi st + data_num_epi W (tr ++ through_update W a st tr) /\
    total_step st' =
      total_step st +
      len (iteration_paths W tr) * len (rews path0) * world_size a /\
    (if String.eqb (ppo_type a) "clip" then kl_beta st' = kl_beta st
     else dict_get (iteration_result W a tr) "new_kl_beta" = Ok (kl_beta st')) /\
    max_rew st' =
      (if is_rank0 a && float_gt (np_mean W rewards) (max_rew st)
       then np_mean W rewards else max_rew st) /\
    tr' = tr ++ through_update W a st tr ++
      (if is_rank0 a then
         RecordResults (log a) (iteration_result W a tr) (score_file a)
                       (total_epi st') 
                       (len (iteration_paths W tr) * len (rews path0) * world_size a)
                       (total_step st') rewards (env_name a)
         :: (if float_gt (np_mean W rewards) (max_rew st) then best_calls a else [])
         ++ last_calls a
       else []).
Proof.
  unfold iteration. intros H. inv_run.
  match goal with H : update _ _ _ _ = _ |- _ =>
    apply update_returned in H; destruct H as (-> & -> & Hkl) end.
  match goal with
  | H1 : first_item _ = Ok ?p, H2 : path_rewards _ = Ok ?r |- _ => exists p, r
  end.
  unfold iteration_result, through_update, before_update, iteration_paths.
  repeat rewrite <- app_assoc in *. simpl app in *.
  simpl total_epi. simpl total_step. simpl max_rew. simpl kl_beta.
  repeat (split; [solve [auto]|]).
  destruct (is_rank0 a); simpl andb; inv_run.
  - match goal with H : checkpoint _ _ _ _ _ = _ |- _ =>
      apply checkpoint_returned in H; destruct H as (-> & ->) end.
    split; [reflexivity|].
    unfold best_calls, last_calls.
    repeat rewrite <- app_assoc. simpl app. reflexivity.
  - auto.
Qed.

(** ** Where the checkpoints go *)

Lemma append_nonempty (s t : string) :
  t <> "" -> (s ++ t)%string <> "".
Proof. destruct s; simpl; [auto | discriminate]. Qed.

Lemma endswith_sep_append (s t : string) :
  t <> "" -> endswith_sep (s ++ t) = endswith_sep t.
Proof.
  intros Ht. induction s as [|c s IH]; simpl; [reflexivity|].
  destruct (s ++ t)%string eqn:E.
  - now apply append_nonempty in E.
  - exact IH.
Qed.

Lemma eqb_empty_append (s t : string) :
  t <> "" -> String.eqb (s ++ t) "" = false.
Proof.
  intros Ht. apply String.eqb_neq. now apply append_nonempty.
Qed.

Lemma model_file_under a name :
  startswith_sep name = false -> model_file a name = under_models a name.
Proof.
  intros Hn. unfold model_file, under_models, os_path_join. simpl.
  unfold join_step at 1. rewrite Hn.
  assert (H : String.eqb (join_step (log a) "models") "" = false /\
              endswith_sep (join_step (log a) "models") = false).
  { unfold join_step. simpl startswith_sep. cbv iota.
    destruct (String.eqb (log a) "" || endswith_sep (log a))%bool.
    - split; [apply eqb_empty_append | rewrite endswith_sep_append];
        (discriminate || reflexivity).
    - split; [apply eqb_empty_append | rewrite endswith_sep_append];
        (discriminate || reflexivity). }
  destruct H as [-> ->]. reflexivity.
Qed.

Lemma saved_app ev1 ev2 : saved (ev1 ++ ev2) = saved ev1 ++ saved ev2.
Proof.
  induction ev1 as [|c ev1 IH]; simpl; [reflexivity|].
  destruct c; simpl; congruence.
Qed.

Lemma saved_through_update W a st tr : saved (through_update W a st tr) = [].
Proof.
  unfold through_update, before_update, train_call. simpl.
  now destruct (String.eqb (ppo_type a) "clip").
Qed.

Lemma saved_best a : saved (best_calls a) = best_files a.
Proof.
  unfold best_calls, best_files. simpl.
  now rewrite !model_file_under by reflexivity.
Qed.

Lemma saved_last a : saved (last_calls a) = last_files a.
Proof.
  unfold last_calls, last_files. simpl.
  now rewrite !model_file_under by reflexivity.
Qed.

(** ** Runs that go through *)

Lemma bind_returns {A B} (m : M A) (f : A -> M B) tr a tr1 b tr2 :
  m tr = (Returned a, tr1) -> f a tr1 = (Returned b, tr2) ->
  bind m f tr = (Returned b, tr2).
Proof. intros H1 H2. unfold bind. now rewrite H1. Qed.

Lemma lift_returns {A} (r : result A) a tr :
  r = Ok a -> lift r tr = (Returned a, tr).
Proof. now intros ->. Qed.

Lemma call_returns {A} W c (answer : trace -> A) tr :
  raises W tr c = None ->
  call_ret W c answer tr = (Returned (answer tr), tr ++ [c]).
Proof. intros H. unfold call_ret. now rewrite H. Qed.

(** Running a computation forward in a world where no call raises
    ([quiet]), the tests having been decided beforehand. *)
Ltac run quiet :=
  lazymatch goal with
  | |- bind _ _ _ = _ => eapply bind_returns; [run quiet | cbv beta iota; run quiet]
  | |- call_ret _ _ _ _ = _ => apply call_returns, quiet
  | |- call_ _ _ _ = _ => apply call_returns, quiet
  | |- ret _ _ = _ => reflexivity
  | |- read _ _ = _ => reflexivity
  | |- lift _ _ = _ =>
    apply lift_returns; repeat rewrite <- app_assoc; simpl app; eassumption
  | |- measure _ _ _ _ = _ => unfold measure; run quiet
  | |- when true _ _ = _ => unfold when; cbv iota; run quiet
  | |- when false _ _ = _ => unfold when; cbv iota; run quiet
  | |- update _ _ _ _ = _ => unfold update; run quiet
  | |- checkpoint _ _ _ _ _ = _ => unfold checkpoint; run quiet
  | |- (if ?b then _ else _) _ = _ =>
    first [ is_constructor b; cbv iota; run quiet
          | match goal with H : b = _ |- _ => rewrite H; cbv iota; run quiet end ]
  end.

(** An iteration returns when no library call raises, the sampler gives at
    least one path, every path has its reward, and, for the kl variant, the
    update reports a new [kl_beta]. *)
Lemma iteration_returns W a st tr path0 rewards :
  (forall tr c, raises W tr c = None) ->
  first_item (iteration_paths W tr) = Ok path0 ->
  path_rewards (iteration_paths W tr) = Ok rewards ->
  (ppo_type a = "clip" \/
   exists v, dict_get (iteration_result W a tr) "new_kl_beta" = Ok v) ->
  exists st' tr', iteration W a st tr = (Returned st', tr').
Proof.
  intros quiet Hp Hr Hk.
  unfold iteration_result, before_update, iteration_paths in *.
  destruct (is_rank0 a) eqn:R0;
    destruct (float_gt (np_mean W rewards) (max_rew st)) eqn:G;
    (destruct Hk as [Hk | [v Hv]];
     [ apply String.eqb_eq in Hk
     | destruct (String.eqb (ppo_type a) "clip") eqn:Hk ]);
    do 2 eexists; unfold iteration; rewrite ?R0; run quiet.
Qed.

(** C1: on the rank-0 process an iteration completes whenever no library
    call raises and the sampled paths are well formed, and an iteration
    that completes has saved the four most-recent files under
    [<log>/models], preceded by the four best-reward files exactly when its
    mean reward is greater than the running maximum, and nothing else. *)
Theorem C1_checkpoints W a st tr :
  is_rank0 a = true ->
  (forall path0 rewards,
     (forall tr c, raises W tr c = None) ->
     first_item (iteration_paths W tr) = Ok path0 ->
     path_rewards (iteration_paths W tr) = Ok rewards ->
     (ppo_type a = "clip" \/
      exists v, dict_get (iteration_result W a tr) "new_kl_beta" = Ok v) ->
     exists st' tr', iteration W a st tr = (Returned st', tr')) /\
  (forall st' tr',
     iteration W a st tr = (Returned st', tr') ->
     exists mean_rew ev,
       iteration_mean_rew W tr = Ok mean_rew /\
       tr' = tr ++ ev /\
       saved ev =
         (if float_gt mean_rew (max_rew st) then best_files a else []) ++
         last_files a).
Proof.
  intros Hr. split; [intros path0 rewards; apply iteration_returns|].
  intros st' tr' H. apply iteration_returned in H.
  destruct H as (path0 & rewards & _ & Hrs & _ & _ & _ & _ & ->).
  exists (np_mean W rewards). eexists. split; [|split; [reflexivity|]].
  - unfold iteration_mean_rew. now rewrite Hrs.
  - rewrite Hr, saved_app, saved_through_update. simpl.
    rewrite saved_app, saved_last.
    destruct (float_gt _ _); [now rewrite saved_best | reflexivity].
Qed.

Lemma C1_checkpoints_witness :
  let W := Demo.world [Demo.path_a] 1 [] in
  let a := Demo.args_rank 0 in
  exists st' tr',
    iteration W a (init_state a) [] = (Returned st', tr') /\
    exists mean_rew ev,
      iteration_mean_rew W [] = Ok mean_rew /\
      tr' = [] ++ ev /\
      saved ev =
        (if float_gt mean_rew (max_rew (init_state a)) then best_files a else []) ++
        last_files a.
Proof.
  cbv zeta.
  pose (r := iteration (Demo.world [Demo.path_a] 1 []) (Demo.args_rank 0)
                       (init_state (Demo.args_rank 0)) []).
  assert (H : r = (Returned (Demo.value_of (init_state (Demo.args_rank 0)) r), snd r))
    by (vm_compute; reflexivity).
  exists (Demo.value_of (init_state (Demo.args_rank 0)) r), (snd r).
  split; [exact H|].
  assert (R : is_rank0 (Demo.args_rank 0) = true) by (vm_compute; reflexivity).
  exact (proj2 (C1_checkpoints _ _ _ _ R) _ _ H).
Defined.

(** ** The PPO variant *)

Lemma getattr_app l1 l2 d :
  getattr (l1 ++ l2) d =
  match getattr l2 d with
  | Some v => Some v
  | None => getattr l1 d
  end.
Proof.
  induction l1 as [|[d1 v1] l1 IH]; simpl.
  - now destruct (getattr l2 d).
  - rewrite IH. now destruct (getattr l2 d).
Qed.

Lemma in_choices_ppo s :
  in_choices s (Some ["clip"; "kl"]) = true -> s = "clip" \/ s = "kl".
Proof.
  simpl. rewrite orb_false_r. intros H. apply orb_true_iff in H.
  destruct H as [H | H]; apply String.eqb_eq in H; auto.
Qed.

Lemma take_action_dest W d x d' v :
  take_action W (d, x) = Ok (d', v) -> d' = d.
Proof.
  unfold take_action.
  destruct (find_action d parser) as [[ty ch|]|]; destruct x as [s|];
    try discriminate.
  - destruct (get_value W ty s); simpl; [|discriminate].
    destruct (in_choices s ch); [|discriminate]. now intros [= <- _].
  - now intros [= <- _].
Qed.

Lemma take_action_ppo W x v :
  take_action W ("ppo_type", x) = Ok ("ppo_type", v) ->
  v = VStr "clip" \/ v = VStr "kl".
Proof.
  unfold take_action. simpl find_action. destruct x as [s|]; [|discriminate].
  simpl get_value. unfold rbind.
  destruct (in_choices s (Some ["clip"; "kl"])) eqn:E; [|discriminate].
  intros [= <-]. destruct (in_choices_ppo s E) as [-> | ->]; auto.
Qed.

Lemma take_actions_ppo W occs : forall stored v,
  take_actions W occs = Ok stored ->
  getattr stored "ppo_type" = Some v ->
  v = VStr "clip" \/ v = VStr "kl".
Proof.
  induction occs as [|[d x] occs IH]; cbn [take_actions]; intros stored v H G.
  - injection H as <-. discriminate.
  - destruct (take_action W (d, x)) as [[d' v']|] eqn:E; [|discriminate].
    cbn [rbind] in H. destruct (take_actions W occs) as [es|]; [|discriminate].
    cbn [rbind] in H. injection H as <-. cbn [getattr] in G.
    destruct (getattr es "ppo_type") as [v0|] eqn:G0.
    + injection G as <-. now apply (IH es v0).
    + destruct (String.eqb d' "ppo_type") eqn:D; [|discriminate].
      injection G as <-. apply String.eqb_eq in D. subst d'.
      pose proof (take_action_dest _ _ _ _ _ E) as <-.
      now apply take_action_ppo in E.
Qed.

Lemma train_calls_app ev1 ev2 :
  train_calls (ev1 ++ ev2) = train_calls ev1 ++ train_calls ev2.
Proof.
  induction ev1 as [|c ev1 IH]; simpl; [reflexivity|].
  destruct c; simpl; congruence.
Qed.

Lemma train_calls_iteration W a st tr st' tr' :
  iteration W a st tr = (Returned st', tr') ->
  exists ev, tr' = tr ++ ev /\ train_calls ev = [train_call a (kl_beta st)].
Proof.
  intros H. apply iteration_returned in H.
  destruct H as (path0 & rewards & _ & _ & _ & _ & _ & _ & ->).
  eexists. split; [reflexivity|].
  unfold through_update, before_update.
  rewrite !train_calls_app. simpl.
  assert (E : train_calls [train_call a (kl_beta st)] = [train_call a (kl_beta st)]).
  { unfold train_call. now destruct (String.eqb (ppo_type a) "clip"). }
  change (train_call a (kl_beta st) :: train_calls [MeasureExit "train"])
    with (train_calls [train_call a (kl_beta st); MeasureExit "train"]).
  destruct (is_rank0 a); [|now destruct (train_call a (kl_beta st))].
  unfold best_calls, last_calls.
  destruct (float_gt _ _); now destruct (train_call a (kl_beta st)).
Qed.

Lemma Ok_inj {A} (x y : A) : Ok x = Ok y -> x = y.
Proof. now intros [= <-]. Qed.

Lemma take_action_error W occ e :
  take_action W occ = Raise e -> e = SystemExit 2.
Proof.
  destruct occ as [d x]. unfold take_action, parser_error.
  destruct (find_action d parser) as [[ty ch|]|]; destruct x as [s|];
    try (now intros [= <-]).
  unfold get_value, parser_error.
  destruct ty; [| destruct (py_int W s) | destruct (py_float W s)];
    cbn [rbind]; try (now intros [= <-]);
    destruct (in_choices s ch); (discriminate || now intros [= <-]).
Qed.

Lemma take_actions_error W occs : forall occ,
  In occ occs -> (exists e, take_action W occ = Raise e) ->
  take_actions W occs = Raise (SystemExit 2).
Proof.
  induction occs as [|o occs IH]; intros occ Hin [e He]; [destruct Hin|].
  cbn [take_actions].
  destruct (take_action W o) as [p|e'] eqn:E; cbn [rbind].
  - destruct Hin as [-> | Hin]; [congruence|].
    rewrite (IH occ Hin (ex_intro _ e He)). reflexivity.
  - now rewrite (take_action_error _ _ _ E).
Qed.

Lemma take_action_ppo_rejects W v :
  v <> "clip" -> v <> "kl" ->
  take_action W ("ppo_type", Some v) = Raise (SystemExit 2).
Proof.
  intros H1 H2. unfold take_action. simpl find_action. simpl get_value.
  cbn [rbind]. destruct (in_choices v (Some ["clip"; "kl"])) eqn:E; [|reflexivity].
  destruct (in_choices_ppo v E); contradiction.
Qed.

(** C2: a command line that argparse accepts leaves [args.ppo_type] equal
    to 'clip' or 'kl', and one that gives --ppo_type any other value is
    rejected; an iteration makes one update call: [ppo_clip.train] with the
    clip parameter, the loop's [kl_beta] staying as it is, when the type is
    'clip', and otherwise [ppo_kl.train] with the current [kl_beta] and the
    kl target, [kl_beta] becoming the 'new_kl_beta' entry of the dictionary
    that call returned. *)
Theorem C2_ppo_variant W :
  (forall argv a, parse_args W argv = Ok a ->
     ppo_type a = "clip" \/ ppo_type a = "kl") /\
  (forall argv occs v,
     match_options W argv = Some occs -> In ("ppo_type", Some v) occs ->
     v <> "clip" -> v <> "kl" ->
     parse_args W argv = Raise (SystemExit 2)) /\
  (forall a st tr st' tr',
     iteration W a st tr = (Returned st', tr') ->
     exists ev, tr' = tr ++ ev /\
       (ppo_type a = "clip" ->
          train_calls ev =
            [PpoClipTrain (epoch_per_iter a) (batch_size a)
                          (clip_param a) (ent_beta a)] /\
          kl_beta st' = kl_beta st) /\
       (ppo_type a <> "clip" ->
          train_calls ev =
            [PpoKlTrain (kl_beta st) (kl_targ a)
                        (epoch_per_iter a) (batch_size a)] /\
          dict_get (iteration_result W a tr) "new_kl_beta" = Ok (kl_beta st'))).
Proof.
  split; [|split].
  - intros argv a. unfold parse_args.
    destruct (match_options W argv) as [occs|]; [|discriminate].
    destruct (take_actions W occs) as [stored|] eqn:E; [|discriminate].
    unfold rbind. intros H.
    assert (Ha : a = args_of (defaults ++ stored)) by congruence.
    subst a. clear H.
    change (ppo_type (args_of (defaults ++ stored)))
      with (str_attr (defaults ++ stored) "ppo_type").
    unfold str_attr. rewrite getattr_app.
    destruct (getattr stored "ppo_type") as [v|] eqn:G.
    + destruct (take_actions_ppo _ _ _ _ E G) as [-> | ->]; auto.
    + left. reflexivity.
  - intros argv occs v Hm Hin H1 H2. unfold parse_args. rewrite Hm.
    rewrite (take_actions_error W occs _ Hin); [reflexivity|].
    eexists. now apply take_action_ppo_rejects.
  - intros a st tr st' tr' H.
    destruct (train_calls_iteration _ _ _ _ _ _ H) as (ev & -> & Hev).
    apply iteration_returned in H.
    destruct H as (_ & _ & _ & _ & _ & _ & Hkl & _).
    exists ev. split; [reflexivity|]. rewrite Hev. unfold train_call.
    split; intros Hty.
    + rewrite Hty in *. simpl in *. auto.
    + apply String.eqb_neq in Hty. rewrite Hty in *. auto.
Qed.

Lemma C2_ppo_variant_witness :
  let W := Demo.world [Demo.path_a] 1 [("new_kl_beta", PyInt 3)] in
  (ppo_type (Demo.args_kl 0) <> "clip" /\
   exists st' tr', iteration W (Demo.args_kl 0) (init_state (Demo.args_kl 0)) []
                   = (Returned st', tr') /\ kl_beta st' = PyInt 3) /\
  (exists a, parse_args W ["--ppo_type"; "kl"] = Ok a /\
             (ppo_type a = "clip" \/ ppo_type a = "kl")) /\
  parse_args W ["--ppo_type"; "trpo"] = Raise (SystemExit 2).
Proof.
  cbv zeta.
  pose (W := Demo.world [Demo.path_a] 1 [("new_kl_beta", PyInt 3)]).
  pose (a := Demo.args_kl 0).
  pose (r := iteration W a (init_state a) []).
  assert (H : r = (Returned (Demo.value_of (init_state a) r), snd r))
    by (vm_compute; reflexivity).
  assert (N : ppo_type a <> "clip") by (vm_compute; discriminate).
  destruct (C2_ppo_variant W) as (P1 & P2 & P3).
  split; [split; [exact N|] | split].
  - exists (Demo.value_of (init_state a) r), (snd r). split; [exact H|].
    destruct (P3 _ _ _ _ _ H) as (ev & _ & _ & K).
    destruct (K N) as [_ K']. 
    assert (E : dict_get (iteration_result W a []) "new_kl_beta" = Ok (PyInt 3))
      by (vm_compute; reflexivity).
    apply Ok_inj. rewrite <- K'. exact E.
  - assert (Hp : parse_args W ["--ppo_type"; "kl"] =
                 Ok (args_of (defaults ++ [("ppo_type", VStr "kl")])))
      by (vm_compute; reflexivity).
    exists (args_of (defaults ++ [("ppo_type", VStr "kl")])).
    split; [exact Hp | exact (P1 _ _ Hp)].
  - apply (P2 _ [("ppo_type", Some "trpo")] "trpo");
      [reflexivity | now left | discriminate | discriminate].
Defined.

(** ** The loop and the episode budget *)

Lemma halts_ret {A} (a : A) : halts (ret a).
Proof. intros tr. discriminate. Qed.

Lemma halts_lift {A} (r : result A) : halts (lift r).
Proof. intros tr. unfold lift. destruct r; discriminate. Qed.

Lemma halts_read {A} (attr : trace -> A) : halts (read attr).
Proof. intros tr. discriminate. Qed.

Lemma halts_call {A} W c (answer : trace -> A) : halts (call_ret W c answer).
Proof. intros tr. unfold call_ret. destruct (raises W tr c); discriminate. Qed.

Lemma halts_bind {A B} (m : M A) (f : A -> M B) :
  halts m -> (forall a, halts (f a)) -> halts (bind m f).
Proof.
  intros Hm Hf tr. unfold bind. specialize (Hm tr).
  destruct (m tr) as [[a | e |] tr1]; simpl in *;
    [apply Hf | discriminate | congruence].
Qed.

Ltac halt :=
  repeat first
    [ apply halts_ret | apply halts_lift | apply halts_read | apply halts_call
    | apply halts_bind; [|intros ?]
    | match goal with
      | |- halts (when ?b _) => unfold when; destruct b
      | |- halts (measure _ _ _) => unfold measure
      | |- halts (if ?b then _ else _) => destruct b
      | |- halts (let (_, _) := ?p in _) => destruct p
      end ].

Lemma iteration_halts W a st : halts (iteration W a st).
Proof. unfold iteration, update, checkpoint. halt. Qed.

Lemma train_loop_bounded W a :
  (forall tr, 1 <= data_num_epi W tr) ->
  forall fuel st tr,
    (Z.to_nat (max_episodes a - total_epi st) <= fuel)%nat ->
    fst (train_loop W fuel a st tr) <> OutOfFuel /\
    forall st', fst (train_loop W fuel a st tr) = Returned st' ->
                max_episodes a <= total_epi st'.
Proof.
  intros Hepi. induction fuel as [|fuel IH]; intros st tr Hfuel;
    cbn [train_loop]; destruct (Z.gtb_spec (max_episodes a) (total_epi st)) as [Hgt | Hle].
  - lia.
  - split; [discriminate|]. intros st' [= <-]. exact Hle.
  - unfold bind. pose proof (iteration_halts W a st tr) as Hh.
    destruct (iteration W a st tr) as [[st1 | e |] tr1] eqn:E; simpl in Hh.
    + apply IH. apply iteration_returned in E.
      destruct E as (_ & _ & _ & _ & Ht & _).
      specialize (Hepi (tr ++ through_update W a st tr)). lia.
    + split; discriminate.
    + congruence.
  - split; [discriminate|]. intros st' [= <-]. exact Hle.
Qed.

(** C3: the loop runs no iteration once [total_epi] has reached
    [--max_episodes] and runs one while it is below; an iteration adds
    [data.num_epi] to [total_epi]; so, when every iteration brings at least
    one episode, the loop is over after at most [max_episodes - total_epi]
    iterations, and if it returns then [total_epi] has reached
    [max_episodes]. *)
Theorem C3_loop_terminates W a :
  (forall fuel st tr,
     max_episodes a <= total_epi st ->
     train_loop W fuel a st tr = (Returned st, tr)) /\
  (forall fuel st tr,
     total_epi st < max_episodes a ->
     train_loop W (S fuel) a st tr =
     bind (iteration W a st) (train_loop W fuel a) tr) /\
  (forall st tr st' tr',
     iteration W a st tr = (Returned st', tr') ->
     total_epi st' =
     total_epi st + data_num_epi W (tr ++ through_update W a st tr)) /\
  ((forall tr, 1 <= data_num_epi W tr) ->
   forall fuel st tr,
     (Z.to_nat (max_episodes a - total_epi st) <= fuel)%nat ->
     fst (train_loop W fuel a st tr) <> OutOfFuel /\
     forall st', fst (train_loop W fuel a st tr) = Returned st' ->
                 max_episodes a <= total_epi st').
Proof.
  repeat split.
  - intros fuel st tr H.
    destruct fuel; cbn [train_loop];
      destruct (Z.gtb_spec (max_episodes a) (total_epi st)); (lia || reflexivity).
  - intros fuel st tr H. cbn [train_loop].
    destruct (Z.gtb_spec (max_episodes a) (total_epi st)); [reflexivity | lia].
  - intros st tr st' tr' H. apply iteration_returned in H.
    now destruct H as (_ & _ & _ & _ & Ht & _).
  - now apply train_loop_bounded.
  - now apply train_loop_bounded.
Qed.

Lemma C3_loop_terminates_witness :
  let W := Demo.world [Demo.path_a] 1 [] in
  let a := Demo.args_short 0 in
  (forall tr, 1 <= data_num_epi W tr) /\
  (Z.to_nat (max_episodes a - total_epi (init_state a)) <= 2)%nat /\
  fst (train_loop W 2 a (init_state a) []) <> OutOfFuel.
Proof.
  cbv zeta.
  assert (H1 : forall tr, 1 <= data_num_epi (Demo.world [Demo.path_a] 1 []) tr)
    by (intros tr; simpl; lia).
  assert (H2 : (Z.to_nat (max_episodes (Demo.args_short 0) -
                          total_epi (init_state (Demo.args_short 0))) <= 2)%nat)
    by (vm_compute; lia).
  split; [exact H1 | split; [exact H2|]].
  exact (proj1 (proj2 (proj2 (proj2 (C3_loop_terminates _ _))) H1 2%nat _ [] H2)).
Defined.

(** ** The steps of a run *)

Ltac inv_if :=
  match goal with
  | H : (if ?b then _ else _) _ = (Returned _, _) |- _ => destruct b eqn:?
  end.

Lemma prepare_log_returned W a tr u tr' :
  prepare_log W a tr = (Returned u, tr') ->
  exists mk_log mk_models, tr' = tr ++ config_calls a mk_log mk_models.
Proof.
  unfold prepare_log, os_path_exists, when, config_calls. intros H.
  repeat first [progress inv_run | inv_if]; flatten_trace;
    first [ now exists true, true | now exists true, false
          | now exists false, true | now exists false, false ].
Qed.

Lemma build_returned W a tr u tr' :
  build W a tr = (Returned u, tr') -> tr' = tr ++ build_calls a.
Proof.
  unfold build, build_calls. intros H. inv_run. flatten_trace. reflexivity.
Qed.

Lemma configure_returned W a tr a' tr' :
  configure W a tr = (Returned a', tr') ->
  exists r mk_log mk_models,
    local_rank a = Some r /\ a' = set_seed a (seed a * (r + 23)) /\
    tr' = tr ++ config_calls a mk_log mk_models ++ build_calls a'.
Proof.
  unfold configure. intros H. inv_run.
  match goal with H : derive_seed _ = Ok _ |- _ =>
    unfold derive_seed in H; destruct (local_rank a) as [r|] eqn:Hr;
    [apply Ok_inj in H; subst | discriminate H] end.
  match goal with H : prepare_log _ _ _ = _ |- _ =>
    apply prepare_log_returned in H; destruct H as (m1 & m2 & ->) end.
  match goal with H : build _ _ _ = _ |- _ =>
    apply build_returned in H; subst end.
  exists r, m1, m2. rewrite <- app_assoc. auto.
Qed.

Lemma configure_halts W a : halts (configure W a).
Proof. unfold configure, prepare_log, os_path_exists, build. halt. Qed.

(** An iteration that returns has made the calls of a whole block. *)
Lemma iteration_performs W a st tr st' tr' :
  iteration W a st tr = (Returned st', tr') ->
  exists ev, tr' = tr ++ ev /\ performs a ev.
Proof.
  intros H. apply iteration_returned in H.
  destruct H as (path0 & rewards & _ & _ & _ & _ & _ & _ & ->).
  eexists. split; [reflexivity|].
  exists (iteration_paths W tr), (kl_beta st),
    (RecordResults (log a) (iteration_result W a tr) (score_file a)
                   (total_epi st')
                   (len (iteration_paths W tr) * len (rews path0) * world_size a)
                   (total_step st') rewards (env_name a)),
    (float_gt (np_mean W rewards) (max_rew st)).
  split; [reflexivity|].
  unfold iteration_block, through_update, before_update.
  rewrite <- app_assoc. reflexivity.
Qed.

Lemma iteration_extends W a st tr :
  exists ev, snd (iteration W a st tr) = tr ++ ev.
Proof.
  destruct (iteration_order W a st (Some Construction) (or_introl eq_refl) tr)
    as (ev & _ & H & _).
  eauto.
Qed.

(** The calls of the loop: one block for every iteration that returned,
    then what an iteration cut short by an exception had done. *)
Lemma train_loop_blocks W a : forall fuel st tr,
  exists blocks rest,
    snd (train_loop W fuel a st tr) = tr ++ List.concat blocks ++ rest /\
    Forall (performs a) blocks /\
    match fst (train_loop W fuel a st tr) with
    | Returned _ =>
      rest = [] /\ (total_epi st < max_episodes a -> blocks <> [])
    | OutOfFuel => rest = [] /\ List.length blocks = fuel
    | Raised _ => True
    end.
Proof.
  induction fuel as [|fuel IH]; intros st tr; cbn [train_loop];
    destruct (Z.gtb_spec (max_episodes a) (total_epi st)) as [Hgt | Hle].
  - exists [], []. simpl. rewrite app_nil_r. auto.
  - exists [], []. simpl. rewrite app_nil_r. repeat split; auto. lia.
  - unfold bind. pose proof (iteration_halts W a st tr) as Hh.
    destruct (iteration W a st tr) as [[st1 | e |] tr1] eqn:E; simpl in Hh.
    + destruct (iteration_performs _ _ _ _ _ _ E) as (ev & -> & Hev).
      destruct (IH st1 (tr ++ ev)) as (blocks & rest & Htr & Hb & Ho).
      exists (ev :: blocks), rest. rewrite Htr. cbn [List.concat].
      rewrite <- !app_assoc. split; [reflexivity|].
      split; [now constructor|].
      destruct (fst (train_loop W fuel a st1 (tr ++ ev))); auto.
      * destruct Ho as [-> _]. split; [reflexivity | discriminate].
      * destruct Ho as [-> <-]. auto.
    + destruct (iteration_extends W a st tr) as (ev & Hev).
      rewrite E in Hev. simpl in Hev. exists [], ev. simpl. auto.
    + congruence.
  - exists [], []. simpl. rewrite app_nil_r. repeat split; auto. lia.
Qed.

(** C4 (amended): the calls of every run come in the order configuration,
    process group, construction, and then, iteration after iteration,
    sampling, preprocessing, update and - on the process of rank 0 only -
    logging and checkpointing, no phase being skipped; a run that returns
    stops after the construction or at the end of an iteration.  And the
    steps are performed: once the configuration and construction have gone
    through, the history is the calls of lines 72-81, then
    [init_process_group] and the construction of lines 87-113, then one
    whole block for every iteration that returned - [sampler.sample],
    [GAEVectorData] and [preprocess], the update, and on rank 0
    [record_results] and the checkpoints, in this order - and last what an
    iteration cut short by an exception had done.  A loop that returns
    with a positive [--max_episodes] has made at least one iteration, a
    loop that is still running after [fuel] iterations has made [fuel]. *)
Theorem C4_phase_order W fuel argv a :
  parse_args W argv = Ok a ->
  in_order (is_rank0 a) (snd (main W fuel argv [])) = true /\
  (forall st, fst (main W fuel argv []) = Returned st ->
    run_phases (is_rank0 a) None (snd (main W fuel argv [])) = Some (Some Construction) \/
    run_phases (is_rank0 a) None (snd (main W fuel argv [])) =
      Some (Some (end_phase (is_rank0 a)))) /\
  (forall a' tr0,
     configure W a [] = (Returned a', tr0) ->
     exists r mk_log mk_models blocks rest,
       local_rank a = Some r /\ a' = set_seed a (seed a * (r + 23)) /\
       tr0 = config_calls a mk_log mk_models ++ build_calls a' /\
       snd (main W fuel argv []) = tr0 ++ List.concat blocks ++ rest /\
       Forall (performs a) blocks /\
       match fst (main W fuel argv []) with
       | Returned _ => rest = [] /\ (0 < max_episodes a -> blocks <> [])
       | OutOfFuel => rest = [] /\ List.length blocks = fuel
       | Raised _ => True
       end).
Proof.
  intros Hp. split; [|split].
  - destruct (main_order W fuel argv a Hp []) as (ev & q & Htr & Hst & HQ).
    simpl in Htr. rewrite Htr. apply steps_run_phases in Hst.
    unfold in_order. now rewrite Hst.
  - destruct (main_order W fuel argv a Hp []) as (ev & q & Htr & Hst & HQ).
    simpl in Htr. rewrite Htr. apply steps_run_phases in Hst. rewrite Hst.
    intros st Hret. destruct (HQ st Hret) as [-> | ->]; auto.
  - intros a' tr0 Hc.
    assert (Hm : main W fuel argv [] = train_loop W fuel a' (init_state a') tr0).
    { unfold main, bind, lift. rewrite Hp, Hc. reflexivity. }
    destruct (configure_returned _ _ _ _ _ Hc) as (r & m1 & m2 & Hr & Ha & Htr).
    simpl in Htr.
    destruct (train_loop_blocks W a' fuel (init_state a') tr0)
      as (blocks & rest & Hev & Hb & Ho).
    exists r, m1, m2, blocks, rest. rewrite Hm.
    split; [exact Hr|]. split; [exact Ha|]. split; [exact Htr|].
    split; [exact Hev|]. split; [subst a'; exact Hb|].
    subst a'. exact Ho.
Qed.

Lemma C4_phase_order_witness :
  let W := Demo.world [Demo.path_a] 1 [] in
  let argv := ["--local_rank"; "0"; "--max_episodes"; "2"] in
  exists a, parse_args W argv = Ok a /\
            in_order (is_rank0 a) (snd (main W 5 argv [])) = true /\
            exists blocks rest,
              snd (main W 5 argv []) =
                snd (configure W a []) ++ List.concat blocks ++ rest /\
              Forall (performs a) blocks.
Proof.
  cbv zeta. exists (Demo.args_short 0).
  assert (Hp : parse_args (Demo.world [Demo.path_a] 1 [])
                          ["--local_rank"; "0"; "--max_episodes"; "2"]
               = Ok (Demo.args_short 0)) by (vm_compute; reflexivity).
  assert (Hc : configure (Demo.world [Demo.path_a] 1 []) (Demo.args_short 0) [] =
               (Returned (set_seed (Demo.args_short 0)
                                   (seed (Demo.args_short 0) * (0 + 23))),
                snd (configure (Demo.world [Demo.path_a] 1 [])
                               (Demo.args_short 0) [])))
    by (vm_compute; reflexivity).
  split; [exact Hp|].
  destruct (C4_phase_order _ 5 _ _ Hp) as (H1 & _ & H3).
  split; [exact H1|].
  destruct (H3 _ _ Hc) as (r & m1 & m2 & blocks & rest & _ & _ & _ & Hev & Hb & _).
  exists blocks, rest. split; [exact Hev | exact Hb].
Defined.

(** ** The per-path reward *)

Lemma select_length : forall mask inds,
  (List.length mask <= List.length inds)%nat ->
  List.length (select inds mask) = List.length (filter (fun m => m =? 1) mask).
Proof.
  induction mask as [|m mask IH]; intros [|i inds] H; simpl in *;
    try reflexivity; try lia.
  destruct (m =? 1); simpl; rewrite IH by lia; reflexivity.
Qed.

Lemma arange_length (l : list Z) : List.length (arange (len l)) = List.length l.
Proof. unfold arange, len. now rewrite length_map, length_seq, Nat2Z.id. Qed.

Lemma done_indices_length p : len (done_indices p) = done_flags p.
Proof.
  unfold done_indices, done_flags.
  set (inds := arange (len (dones p))). unfold len. f_equal.
  apply select_length. subst inds. now rewrite arange_length.
Qed.

Lemma getitem_nil i : getitem [] i = Raise IndexError.
Proof.
  unfold getitem, len. simpl.
  destruct (i <? 0); destruct (Z.leb_spec 0 (i + 0)); destruct (Z.ltb_spec (i + 0) 0);
    destruct (Z.leb_spec 0 i); destruct (Z.ltb_spec i 0); simpl; try reflexivity; lia.
Qed.

Lemma getitem_in_range (a : list Z) i :
  let j := if i <? 0 then i + len a else i in
  0 <= j < len a -> exists x, getitem a i = Ok x.
Proof.
  intros j Hj. unfold getitem. fold j.
  destruct (Z.leb_spec 0 j); [|lia]. destruct (Z.ltb_spec j (len a)); [|lia].
  simpl. destruct (nth_error a (Z.to_nat j)) eqn:E; [eauto|].
  apply nth_error_None in E. unfold len in *. lia.
Qed.

Lemma slice_empty {A} (a : list A) i : slice a i i = [].
Proof. unfold slice. now rewrite Z.sub_diag. Qed.

Lemma py_truediv_nonzero x n :
  n <> 0 ->
  py_truediv x n = Ok (PyFloat (SFdiv prec emax (to_float x) (float_of_int n))).
Proof.
  intros Hn. unfold py_truediv. destruct x; [|reflexivity].
  apply Z.eqb_neq in Hn. now rewrite Hn.
Qed.

Lemma path_reward_cases (p : path) :
  (done_flags p = 0 -> path_reward p = Raise IndexError) /\
  (done_flags p = 1 -> path_reward p = Raise ZeroDivisionError) /\
  (2 <= done_flags p ->
   exists first last,
     getitem (done_indices p) 0 = Ok first /\
     getitem (done_indices p) (-1) = Ok last /\
     path_reward p =
       Ok (PyFloat (SFdiv prec emax
                          (to_float (py_sum (slice (rews p) first last)))
                          (float_of_int (done_flags p - 1))))).
Proof.
  pose proof (done_indices_length p) as Hlen.
  unfold path_reward. fold (done_indices p). rewrite Hlen.
  split; [|split]; intros Hk.
  - destruct (done_indices p) as [|x l]; [|unfold len in Hlen; simpl in Hlen; lia].
    now rewrite getitem_nil.
  - destruct (done_indices p) as [|x [|y l]];
      try (unfold len in Hlen; simpl in Hlen; lia).
    change (getitem [x] 0) with (@Ok Z x).
    change (getitem [x] (-1)) with (@Ok Z x).
    cbn [rbind]. rewrite slice_empty, Hk. reflexivity.
  - destruct (getitem_in_range (done_indices p) 0) as [first Hf];
      [change (0 <= 0 < len (done_indices p)); lia|].
    destruct (getitem_in_range (done_indices p) (-1)) as [last Hl];
      [change (0 <= -1 + len (done_indices p) < len (done_indices p)); lia|].
    exists first, last. rewrite Hf, Hl. cbn [rbind].
    repeat split. apply py_truediv_nonzero. lia.
Qed.

Lemma done_flags_nonneg p : 0 <= done_flags p.
Proof. unfold done_flags, len. lia. Qed.

(** C8: the reward of a path is defined exactly when its 'dones' mask holds
    at least two entries equal to 1, and is then the sum of the rewards
    between the first and the last of them divided by their number minus
    one; with exactly one such entry the division is by zero, with none the
    empty index array is indexed.  So the rewards of an iteration are
    computed when every sampled path has two such entries, and the loop
    body raises as soon as one path has fewer. *)
Theorem C8_path_reward :
  (forall p,
     (done_flags p = 0 -> path_reward p = Raise IndexError) /\
     (done_flags p = 1 -> path_reward p = Raise ZeroDivisionError) /\
     (2 <= done_flags p ->
      exists first last,
        getitem (done_indices p) 0 = Ok first /\
        getitem (done_indices p) (-1) = Ok last /\
        path_reward p =
          Ok (PyFloat (SFdiv prec emax
                             (to_float (py_sum (slice (rews p) first last)))
                             (float_of_int (done_flags p - 1)))))) /\
  (forall paths,
     (forall p, In p paths -> 2 <= done_flags p) ->
     exists rewards, path_rewards paths = Ok rewards) /\
  (forall paths p,
     In p paths -> done_flags p < 2 ->
     exists e, path_rewards paths = Raise e /\
               (e = IndexError \/ e = ZeroDivisionError)).
Proof.
  split; [exact path_reward_cases|]. split.
  - induction paths as [|p paths IH]; intros H; [now exists []|].
    destruct (path_reward_cases p) as (_ & _ & H2).
    destruct (H2 (H p (or_introl eq_refl))) as (f & l & _ & _ & E).
    destruct IH as [rs Hrs]; [intros q Hq; apply H; now right|].
    cbn [path_rewards]. rewrite E, Hrs. cbn [rbind]. eauto.
  - induction paths as [|q paths IH]; intros p Hin Hp; [destruct Hin|].
    cbn [path_rewards].
    destruct (path_reward_cases q) as (H0 & H1 & H2).
    pose proof (done_flags_nonneg q) as Hq.
    destruct (Z.eq_dec (done_flags q) 0) as [E0 | N0];
      [rewrite (H0 E0); cbn [rbind]; eauto|].
    destruct (Z.eq_dec (done_flags q) 1) as [E1 | N1];
      [rewrite (H1 E1); cbn [rbind]; eauto|].
    destruct (H2 ltac:(lia)) as (f & l & _ & _ & E). rewrite E. cbn [rbind].
    destruct Hin as [-> | Hin]; [lia|].
    destruct (IH p Hin Hp) as (e & -> & He). cbn [rbind]. eauto.
Qed.

Lemma C8_path_reward_witness :
  done_flags (mkPath [Demo.f1] [0]) = 0 /\
  path_reward (mkPath [Demo.f1] [0]) = Raise IndexError /\
  done_flags (mkPath [Demo.f1] [1]) = 1 /\
  path_reward (mkPath [Demo.f1] [1]) = Raise ZeroDivisionError /\
  2 <= done_flags Demo.path_a /\
  exists v, path_reward Demo.path_a = Ok v.
Proof.
  assert (H0 : done_flags (mkPath [Demo.f1] [0]) = 0) by reflexivity.
  assert (H1 : done_flags (mkPath [Demo.f1] [1]) = 1) by reflexivity.
  assert (H2 : 2 <= done_flags Demo.path_a) by (vm_compute; discriminate).
  split; [exact H0|].
  split; [exact (proj1 (proj1 C8_path_reward _) H0)|].
  split; [exact H1|].
  split; [exact (proj1 (proj2 (proj1 C8_path_reward _)) H1)|].
  split; [exact H2|].
  destruct (proj2 (proj2 (proj1 C8_path_reward _)) H2) as (f & l & _ & _ & E).
  eexists. exact E.
Defined.

(** ** The order of floats *)

Ltac cmp_cases :=
  repeat match goal with
  | |- context [Z.compare ?x ?y] => destruct (Z.compare_spec x y)
  | H : context [Z.compare ?x ?y] |- _ => destruct (Z.compare_spec x y)
  | |- context [Pos.compare_cont Eq ?x ?y] =>
    change (Pos.compare_cont Eq x y) with (Pos.compare x y);
    destruct (Pos.compare_spec x y)
  | H : context [Pos.compare_cont Eq ?x ?y] |- _ =>
    change (Pos.compare_cont Eq x y) with (Pos.compare x y) in H;
    destruct (Pos.compare_spec x y)
  end.

Lemma float_le_trans a b c :
  float_le a b = true -> float_le b c = true -> float_le a c = true.
Proof.
  unfold float_le, SFleb.
  destruct a as [sa|sa| |sa ma ea], b as [sb|sb| |sb mb eb], c as [sc|sc| |sc mc ec];
    simpl; try discriminate; try reflexivity;
    try destruct sa; try destruct sb; try destruct sc; simpl;
    try discriminate; try reflexivity; intros H1 H2;
    cmp_cases; simpl in *; subst; try discriminate; try reflexivity; try lia.
Qed.

Lemma float_le_refl a : is_nan a = false -> float_le a a = true.
Proof.
  unfold float_le, SFleb. destruct a as [s|s| |s m e]; simpl; try discriminate;
    try reflexivity; destruct s; try reflexivity; intros _;
    rewrite Z.compare_refl; change (Pos.compare_cont Eq m m) with (Pos.compare m m);
    rewrite Pos.compare_refl; reflexivity.
Qed.

Lemma float_gt_le a b : float_gt a b = true -> float_le b a = true.
Proof.
  unfold float_gt, float_le, SFltb, SFleb. now destruct (SFcompare b a) as [[]|].
Qed.

Lemma float_gt_not_nan a b :
  float_gt a b = true -> is_nan a = false /\ is_nan b = false.
Proof.
  unfold float_gt, SFltb. destruct a, b; simpl; try discriminate; auto.
Qed.

Lemma float_not_gt_le a b :
  float_gt a b = false -> is_nan a = false -> is_nan b = false ->
  float_le a b = true.
Proof.
  unfold float_gt, float_le, SFltb, SFleb.
  destruct a as [sa|sa| |sa ma ea], b as [sb|sb| |sb mb eb];
    simpl; try discriminate; try reflexivity;
    try destruct sa; try destruct sb; simpl;
    try discriminate; try reflexivity; intros H1 _ _;
    cmp_cases; simpl in *; subst; try discriminate; try reflexivity; try lia.
Qed.

Lemma float_gt_irrefl a : float_gt a a = false.
Proof.
  unfold float_gt, SFltb. destruct a as [s|s| |s m e]; simpl; try reflexivity;
    destruct s; try reflexivity;
    rewrite Z.compare_refl; change (Pos.compare_cont Eq m m) with (Pos.compare m m);
    rewrite Pos.compare_refl; reflexivity.
Qed.

(** ** The running maximum *)

Lemma iteration_max_rew W a st tr st' tr' :
  iteration W a st tr = (Returned st', tr') ->
  exists mean_rew ev,
    iteration_mean_rew W tr = Ok mean_rew /\
    tr' = tr ++ ev /\
    max_rew st' =
      (if is_rank0 a && float_gt mean_rew (max_rew st) then mean_rew
       else max_rew st) /\
    saved ev =
      (if is_rank0 a then
         (if float_gt mean_rew (max_rew st) then best_files a else []) ++
         last_files a
       else []).
Proof.
  intros H. apply iteration_returned in H.
  destruct H as (path0 & rewards & _ & Hrs & _ & _ & _ & Hmax & ->).
  exists (np_mean W rewards). eexists.
  split; [unfold iteration_mean_rew; now rewrite Hrs|].
  split; [reflexivity|]. split; [exact Hmax|].
  rewrite saved_app, saved_through_update. simpl.
  destruct (is_rank0 a); [|reflexivity]. simpl.
  rewrite saved_app, saved_last.
  destruct (float_gt _ _); [now rewrite saved_best | reflexivity].
Qed.

(** Every run of the loop that returns is such a sequence of iterations. *)
Lemma train_loop_iterations W a st0 tr0 : forall fuel means st tr st' tr',
  iterations W a st0 tr0 means st tr ->
  train_loop W fuel a st tr = (Returned st', tr') ->
  exists means', iterations W a st0 tr0 means' st' tr'.
Proof.
  induction fuel as [|fuel IH]; intros means st tr st' tr' Hit H;
    cbn [train_loop] in H; destruct (max_episodes a >? total_epi st).
  - discriminate.
  - apply ret_returned in H. destruct H as [-> ->]. eauto.
  - apply bind_returned in H. destruct H as (st1 & tr1 & H1 & H2).
    destruct (iteration_max_rew _ _ _ _ _ _ H1) as (m & ev & Hm & _).
    eapply IH; [|exact H2]. econstructor; eauto.
  - apply ret_returned in H. destruct H as [-> ->]. eauto.
Qed.

Lemma max_rew_invariant W a tr0 means st tr :
  iterations W a (init_state a) tr0 means st tr ->
  is_nan (max_rew st) = false /\
  (is_rank0 a = true -> is_maximum (max_rew st) (f_minus_1e6 :: means)).
Proof.
  induction 1 as [|means st1 tr1 m st2 tr2 Hit [Hnan IH] Hrun Hm].
  - split; [reflexivity|]. intros _. split; [now left|].
    intros x [<- | []] _. reflexivity.
  - destruct (iteration_max_rew _ _ _ _ _ _ Hrun) as (m' & ev & Hm' & _ & Hmax & _).
    rewrite Hm in Hm'. injection Hm' as <-. rewrite Hmax.
    destruct (is_rank0 a); simpl; [|split; [exact Hnan | discriminate]].
    specialize (IH eq_refl). destruct IH as [Hin Hub].
    destruct (float_gt m (max_rew st1)) eqn:G.
    + split; [now apply float_gt_not_nan in G|]. intros _. split.
      * right. apply in_or_app. right. now left.
      * intros x [<- | Hx] Hx_nan.
        -- eapply float_le_trans; [apply Hub; [now left | reflexivity]|].
           now apply float_gt_le.
        -- apply in_app_or in Hx. destruct Hx as [Hx | [<- | []]].
           ++ eapply float_le_trans; [apply Hub; [now right | exact Hx_nan]|].
              now apply float_gt_le.
           ++ now apply float_le_refl.
    + split; [exact Hnan|]. intros _. split.
      * destruct Hin as [Hin | Hin]; [now left|].
        right. apply in_or_app. now left.
      * intros x [<- | Hx] Hx_nan.
        -- apply Hub; [now left | reflexivity].
        -- apply in_app_or in Hx. destruct Hx as [Hx | [<- | []]].
           ++ apply Hub; [now right | exact Hx_nan].
           ++ now apply float_not_gt_le.
Qed.

Lemma append_inj_l (s t1 t2 : string) :
  (s ++ t1)%string = (s ++ t2)%string -> t1 = t2.
Proof. induction s as [|c s IH]; simpl; [auto|]. intros [= H]. auto. Qed.

Lemma best_not_last a f : In f (best_files a) -> ~ In f (last_files a).
Proof.
  unfold best_files, last_files, under_models. simpl.
  intros [<- | [<- | [<- | [<- | []]]]] [H | [H | [H | [H | []]]]];
    try discriminate H; injection H as H; apply append_inj_l in H; discriminate H.
Qed.

(** C9: [max_rew] never decreases from one iteration to the next; on the
    process of rank 0 it is, after every iteration, the maximum of -1e6 and
    the mean rewards of the iterations so far; and an iteration writes a
    best-reward file only if [max_rew] strictly increases in it, in which
    case it writes all four.  The states meant are those the loop goes
    through: a run of the loop that returns is a sequence of iterations. *)
Theorem C9_running_maximum W a tr0 :
  (forall means st tr,
     iterations W a (init_state a) tr0 means st tr ->
     (is_rank0 a = true -> is_maximum (max_rew st) (f_minus_1e6 :: means)) /\
     forall st' tr',
       iteration W a st tr = (Returned st', tr') ->
       float_le (max_rew st) (max_rew st') = true /\
       exists ev, tr' = tr ++ ev /\
         ((exists f, In f (best_files a) /\ In f (saved ev)) ->
          float_gt (max_rew st') (max_rew st) = true) /\
         (float_gt (max_rew st') (max_rew st) = true ->
          forall f, In f (best_files a) -> In f (saved ev))) /\
  (forall fuel st' tr',
     train_loop W fuel a (init_state a) tr0 = (Returned st', tr') ->
     exists means, iterations W a (init_state a) tr0 means st' tr').
Proof.
  split;
    [|intros fuel st' tr';
      apply (train_loop_iterations W a _ _ fuel []); constructor].
  intros means st tr Hit.
  destruct (max_rew_invariant _ _ _ _ _ _ Hit) as [Hnan Hmax].
  split; [exact Hmax|]. intros st' tr' Hrun.
  destruct (iteration_max_rew _ _ _ _ _ _ Hrun) as (m & ev & _ & -> & -> & Hs).
  destruct (is_rank0 a); simpl in *.
  - destruct (float_gt m (max_rew st)) eqn:G.
    + split; [now apply float_gt_le|]. exists ev. split; [reflexivity|].
      split; [auto|]. intros _ f Hf. rewrite Hs. apply in_or_app. now left.
    + split; [now apply float_le_refl|]. exists ev. split; [reflexivity|].
      rewrite Hs, float_gt_irrefl. simpl. split; [|discriminate].
      intros (f & Hb & Hl). now apply best_not_last in Hb.
  - split; [now apply float_le_refl|]. exists ev. split; [reflexivity|].
    rewrite Hs, float_gt_irrefl. split; [|discriminate].
    intros (f & _ & []).
Qed.

Lemma C9_running_maximum_witness :
  let W := Demo.world [Demo.path_a] 1 [] in
  let a := Demo.args_rank 0 in
  exists st' tr',
    iteration W a (init_state a) [] = (Returned st', tr') /\
    float_le (max_rew (init_state a)) (max_rew st') = true /\
    is_maximum (max_rew (init_state a)) [f_minus_1e6].
Proof.
  cbv zeta.
  pose (W := Demo.world [Demo.path_a] 1 []).
  pose (a := Demo.args_rank 0).
  pose (r := iteration W a (init_state a) []).
  assert (H : r = (Returned (Demo.value_of (init_state a) r), snd r))
    by (vm_compute; reflexivity).
  assert (R : is_rank0 a = true) by (vm_compute; reflexivity).
  destruct (proj1 (C9_running_maximum W a []) [] _ _ (iterations_none W a _ _))
    as [M N].
  exists (Demo.value_of (init_state a) r), (snd r).
  split; [exact H|]. split; [exact (proj1 (N _ _ H)) | exact (M R)].
Defined.

(** ** Calls of one kind, in the order they are made *)

Lemma steps_expecting sel ev : forall rem rem',
  steps _ (expecting sel) rem ev rem' -> rem = filter sel ev ++ rem'.
Proof.
  induction ev as [|c ev IH]; simpl; intros rem rem' H.
  - now subst.
  - destruct H as (r1 & Hd & H). unfold expecting in Hd.
    apply IH in H. destruct (sel c); subst; reflexivity.
Qed.

Ltac expect_tac := unfold expecting; simpl; reflexivity.

(** Membership in a list that is written out. *)
Ltac find_in := repeat (first [left; reflexivity | right]).

Lemma prepare_log_expecting W sel a rem :
  (forall p, sel (OsPathExists p) = false) ->
  (forall p, sel (OsMkdir p) = false) ->
  (forall p, sel (OpenW p) = false) ->
  (forall x p, sel (JsonDump x p) = false) ->
  (forall x, sel (Pprint x) = false) ->
  obeys _ (expecting sel) rem (prepare_log W a) (fun _ rem' => rem' = rem).
Proof.
  intros H1 H2 H3 H4 H5. unfold prepare_log.
  obey ltac:(unfold expecting; rewrite ?H1, ?H2, ?H3, ?H4, ?H5; reflexivity);
    reflexivity.
Qed.

Lemma iteration_expecting W sel a st :
  (forall n, sel (MeasureEnter n) = false) ->
  (forall n, sel (MeasureExit n) = false) ->
  sel SamplerSample = false ->
  (forall p, sel (MkGAEVectorData p) = false) ->
  (forall g l c, sel (Preprocess g l c) = false) ->
  (forall e b c x, sel (PpoClipTrain e b c x) = false) ->
  (forall k t e b, sel (PpoKlTrain k t e b) = false) ->
  (forall l rd s t p q r n, sel (RecordResults l rd s t p q r n) = false) ->
  (forall o p, sel (TorchSave o p) = false) ->
  obeys _ (expecting sel) [] (iteration W a st) (fun _ rem' => rem' = []).
Proof.
  intros H1 H2 H3 H4 H5 H6 H7 H8 H9. unfold iteration, update, checkpoint.
  obey ltac:(unfold expecting;
             rewrite ?H1, ?H2, ?H3, ?H4, ?H5, ?H6, ?H7, ?H8, ?H9; reflexivity);
    reflexivity.
Qed.

Lemma build_dist W a :
  obeys _ (expecting is_dist_call) (dist_calls a) (build W a)
        (fun _ rem' => rem' = []).
Proof. unfold build, dist_calls. obey expect_tac. reflexivity. Qed.

Lemma derive_seed_fields a a' :
  derive_seed a = Ok a' ->
  exists r, local_rank a = Some r /\ a' = set_seed a (seed a * (r + 23)).
Proof.
  unfold derive_seed. destruct (local_rank a) as [r|]; [|discriminate].
  intros [= <-]. eauto.
Qed.

Lemma configure_dist W a :
  obeys _ (expecting is_dist_call) (dist_calls a) (configure W a)
        (fun _ rem' => rem' = []).
Proof.
  unfold configure. apply obeys_bind.
  eapply obeys_conseq; [now apply prepare_log_expecting|].
  intros _ rem ->. apply obeys_bind, obeys_lift. intros a' Ha'.
  destruct (derive_seed_fields _ _ Ha') as (r & Hr & ->).
  change (dist_calls a) with (dist_calls (set_seed a (seed a * (r + 23)))).
  apply obeys_bind. eapply obeys_conseq; [apply build_dist|].
  intros _ rem ->. now apply obeys_ret.
Qed.

Lemma main_dist W fuel argv a :
  parse_args W argv = Ok a ->
  obeys _ (expecting is_dist_call) (dist_calls a) (main W fuel argv)
        (fun _ rem' => rem' = []).
Proof.
  intros Hp. unfold main. rewrite Hp.
  apply obeys_bind, obeys_lift. intros a0 [= <-].
  apply obeys_bind. eapply obeys_conseq; [apply configure_dist|].
  intros a' rem ->.
  apply (obeys_train_loop W _ _ (fun rem => rem = [])); [|reflexivity].
  intros st s ->. now apply iteration_expecting.
Qed.

(** C6: the calls of a run that concern the distributed primitives are, in
    this order and no others: [init_process_group] with the world size and
    rank of the command line, and the two [DistributedAdamW] constructions
    with the same rank and world size.  Whatever the run does, its calls of
    this kind are an initial part of these three; all three have been made
    once the configuration has returned. *)
Theorem C6_distributed_configuration W fuel argv a :
  parse_args W argv = Ok a ->
  (exists rest,
     dist_calls a = filter is_dist_call (snd (main W fuel argv [])) ++ rest /\
     forall st, fst (main W fuel argv []) = Returned st -> rest = []) /\
  (forall a' tr,
     configure W a [] = (Returned a', tr) ->
     filter is_dist_call tr = dist_calls a).
Proof.
  intros Hp. split.
  - destruct (main_dist W fuel argv a Hp []) as (ev & rest & Htr & Hst & HQ).
    simpl in Htr. rewrite Htr. apply steps_expecting in Hst. eauto.
  - intros a' tr H.
    destruct (obeys_run _ _ _ _ _ _ _ _ (configure_dist W a) H)
      as (ev & rest & -> & Hst & HQ).
    apply steps_expecting in Hst. rewrite (HQ a' eq_refl), app_nil_r in Hst.
    simpl. now rewrite Hst.
Qed.

Lemma C6_distributed_configuration_witness :
  let W := Demo.world [Demo.path_a] 1 [] in
  let argv := ["--local_rank"; "1"; "--world_size"; "2"; "--max_episodes"; "1"] in
  exists a, parse_args W argv = Ok a /\
    filter is_dist_call (snd (main W 3 argv [])) =
    [InitProcessGroup "nccl" 2 (Some 1);
     MkDistributedAdamW PolNet (Some 1) 2 (pol_lr a);
     MkDistributedAdamW VfNet (Some 1) 2 (vf_lr a)].
Proof.
  cbv zeta.
  pose (W := Demo.world [Demo.path_a] 1 []).
  pose (argv := ["--local_rank"; "1"; "--world_size"; "2"; "--max_episodes"; "1"]).
  pose (a := args_of (defaults ++ [("local_rank", VInt 1); ("world_size", VInt 2);
                                   ("max_episodes", VInt 1)])).
  assert (Hp : parse_args W argv = Ok a) by (vm_compute; reflexivity).
  exists a. split; [exact Hp|].
  destruct (proj1 (C6_distributed_configuration W 3 argv a Hp)) as (rest & E & R).
  assert (Hr : fst (main W 3 argv []) =
               Returned (Demo.value_of (init_state a) (main W 3 argv [])))
    by (vm_compute; reflexivity).
  rewrite (R _ Hr), app_nil_r in E.
  transitivity (dist_calls a); [symmetry; exact E | vm_compute; reflexivity].
Defined.

(** ** Seeds *)

Lemma build_seeded W a s :
  obeys _ (expecting is_seed_or_component)
        (seeded_components a s) (build W (set_seed a s))
        (fun _ rem' => rem' = []).
Proof. unfold build, seeded_components. obey expect_tac. reflexivity. Qed.

Lemma main_seeded W fuel argv a r :
  parse_args W argv = Ok a ->
  local_rank a = Some r ->
  obeys _ (expecting is_seed_or_component)
        (seeded_components a (seed a * (r + 23))) (main W fuel argv)
        (fun _ rem' => rem' = []).
Proof.
  intros Hp Hr. unfold main, configure. rewrite Hp.
  apply obeys_bind, obeys_lift. intros a0 [= <-].
  apply obeys_bind, obeys_bind.
  eapply obeys_conseq; [now apply prepare_log_expecting|].
  intros _ rem ->. apply obeys_bind, obeys_lift. intros a' Ha'.
  destruct (derive_seed_fields _ _ Ha') as (r' & Hr' & ->).
  assert (r' = r) as -> by congruence.
  apply obeys_bind. eapply obeys_conseq; [apply build_seeded|].
  intros _ rem ->. apply obeys_ret.
  apply (obeys_train_loop W _ _ (fun rem => rem = [])); [|reflexivity].
  intros st s ->. now apply iteration_expecting.
Qed.

(** C10, as stated, fails for the seed 0: the processes of rank 0 and of
    rank 1 started with [--seed 0] both seed everything with 0. *)
Lemma C10_seed_zero_counterexample :
  let W := Demo.world [Demo.path_a] 1 [] in
  let argv0 := ["--seed"; "0"; "--local_rank"; "0"; "--max_episodes"; "1"] in
  let argv1 := ["--seed"; "0"; "--local_rank"; "1"; "--max_episodes"; "1"] in
  exists a0 a1 a0' a1',
    parse_args W argv0 = Ok a0 /\ parse_args W argv1 = Ok a1 /\
    seed a0 = seed a1 /\ local_rank a0 <> local_rank a1 /\
    derive_seed a0 = Ok a0' /\ derive_seed a1 = Ok a1' /\
    seed a0' = seed a1' /\
    In (NpRandomSeed 0) (snd (main W 3 argv0 [])) /\
    In (NpRandomSeed 0) (snd (main W 3 argv1 [])).
Proof.
  cbv zeta.
  pose (a0 := args_of (defaults ++ [("seed", VInt 0); ("local_rank", VInt 0);
                                    ("max_episodes", VInt 1)])).
  pose (a1 := args_of (defaults ++ [("seed", VInt 0); ("local_rank", VInt 1);
                                    ("max_episodes", VInt 1)])).
  exists a0, a1, (set_seed a0 0), (set_seed a1 0).
  repeat (split; [vm_compute; reflexivity|]).
  split; [vm_compute; discriminate|].
  repeat (split; [vm_compute; reflexivity|]).
  split; vm_compute; find_in.
Qed.

(** C10 (amended): the seed is replaced by the seed of the command line
    times (local_rank + 23) before anything is seeded or constructed; the
    run seeds numpy and torch with this value, then constructs the
    environment and seeds it with the same value, and passes the same value
    to the sampler; for a seed other than 0, processes of different ranks
    derive different values. *)
Theorem C10_seed_derivation W fuel argv a r :
  parse_args W argv = Ok a ->
  local_rank a = Some r ->
  (exists rest,
     seeded_components a (seed a * (r + 23)) =
       filter is_seed_or_component (snd (main W fuel argv [])) ++ rest /\
     forall st, fst (main W fuel argv []) = Returned st -> rest = []) /\
  (forall a2 a' a2',
     derive_seed a = Ok a' -> derive_seed a2 = Ok a2' ->
     seed a' = seed a * (r + 23) /\
     (seed a2 = seed a -> seed a <> 0 -> local_rank a2 <> local_rank a ->
      seed a2' <> seed a')).
Proof.
  intros Hp Hr. split.
  - destruct (main_seeded W fuel argv a r Hp Hr []) as (ev & rest & Htr & Hst & HQ).
    simpl in Htr. rewrite Htr. apply steps_expecting in Hst. eauto.
  - intros a2 a' a2' H1 H2.
    destruct (derive_seed_fields _ _ H1) as (r1 & Hr1 & ->).
    destruct (derive_seed_fields _ _ H2) as (r2 & Hr2 & ->).
    assert (r1 = r) as -> by congruence. simpl. split; [reflexivity|].
    intros Hs Hnz Hrk. rewrite Hs.
    assert (r2 <> r) by congruence. nia.
Qed.

Lemma C10_seed_derivation_witness :
  let W := Demo.world [Demo.path_a] 1 [] in
  let argv := ["--seed"; "3"; "--local_rank"; "1"; "--max_episodes"; "1"] in
  exists a, parse_args W argv = Ok a /\ local_rank a = Some 1 /\
    exists rest,
      seeded_components a 72 =
        filter is_seed_or_component (snd (main W 3 argv [])) ++ rest.
Proof.
  cbv zeta.
  pose (W := Demo.world [Demo.path_a] 1 []).
  pose (argv := ["--seed"; "3"; "--local_rank"; "1"; "--max_episodes"; "1"]).
  pose (a := args_of (defaults ++ [("seed", VInt 3); ("local_rank", VInt 1);
                                   ("max_episodes", VInt 1)])).
  assert (Hp : parse_args W argv = Ok a) by (vm_compute; reflexivity).
  assert (Hr : local_rank a = Some 1) by (vm_compute; reflexivity).
  exists a. split; [exact Hp | split; [exact Hr|]].
  destruct (proj1 (C10_seed_derivation W 3 argv a 1 Hp Hr)) as (rest & E & _).
  exists rest. exact E.
Defined.

(** ** Files and directories *)

Lemma steps_writes_within allowed ev : forall s s',
  steps _ (writes_within allowed) s ev s' ->
  Forall (fun c => Forall (fun p => In p allowed) (output_paths c)) ev.
Proof.
  induction ev as [|c ev IH]; simpl; intros s s' H; [constructor|].
  destruct H as (s1 & [Hc _] & H). constructor; [exact Hc | eauto].
Qed.

Ltac in_list := simpl; find_in.

Ltac writes_tac :=
  split; [simpl; repeat (constructor; [in_list|]); constructor | reflexivity].

Lemma main_writes W fuel argv a :
  parse_args W argv = Ok a ->
  obeys _ (writes_within (output_files a ++ output_dirs a)) tt
        (main W fuel argv) (fun _ _ => True).
Proof.
  intros Hp. unfold main, configure. rewrite Hp.
  apply obeys_bind, obeys_lift. intros a0 [= <-].
  apply obeys_bind, obeys_bind.
  eapply obeys_conseq with (Q := fun _ s => s = tt).
  { unfold prepare_log. obey writes_tac; reflexivity. }
  intros _ s ->. apply obeys_bind, obeys_lift. intros a' Ha'.
  destruct (derive_seed_fields _ _ Ha') as (r & Hr & ->).
  apply obeys_bind.
  eapply obeys_conseq with (Q := fun _ s => s = tt).
  { unfold build. obey writes_tac. reflexivity. }
  intros _ s ->. apply obeys_ret.
  eapply obeys_conseq.
  - apply (obeys_train_loop W _ _ (fun s => s = tt)); [|reflexivity].
    intros st s ->. unfold iteration, update, checkpoint.
    obey writes_tac; reflexivity.
  - auto.
Qed.

(** C7, as stated, fails: started where the log directory does not exist,
    the script makes the directories [garbage] and [garbage/models]
    itself, and names [garbage/movie] to the environment; none of them is
    one of the ten files. *)
Lemma C7_directories_counterexample :
  let W := Demo.world [Demo.path_a] 1 [] in
  let argv := ["--local_rank"; "0"; "--max_episodes"; "1"] in
  exists a, parse_args W argv = Ok a /\
    In (OsMkdir "garbage") (snd (main W 3 argv [])) /\
    In (OsMkdir "garbage/models") (snd (main W 3 argv [])) /\
    In (MkGymEnv "Pendulum-v0" "garbage/movie" false) (snd (main W 3 argv [])) /\
    ~ In "garbage" (output_files a) /\
    ~ In "garbage/models" (output_files a) /\
    ~ In "garbage/movie" (output_files a).
Proof.
  cbv zeta.
  exists (args_of (defaults ++ [("local_rank", VInt 0); ("max_episodes", VInt 1)])).
  split; [vm_compute; reflexivity|].
  split; [vm_compute; find_in|].
  split; [vm_compute; find_in|].
  split; [vm_compute; find_in|].
  repeat split;
    vm_compute; intros H; repeat (destruct H as [H | H]; [discriminate H|]);
    exact H.
Qed.

(** C7 (amended): every path that a call of the script creates, writes or
    names as a place to write to is one of the ten files (the dump of the
    arguments, the progress CSV, the eight checkpoints) or one of the
    directories [<log>], [<log>/models] and [<log>/movie]. *)
Theorem C7_outputs W fuel argv a :
  parse_args W argv = Ok a ->
  forall c, In c (snd (main W fuel argv [])) ->
  forall p, In p (output_paths c) ->
    In p (output_files a) \/ In p (output_dirs a).
Proof.
  intros Hp c Hc p Hpth.
  destruct (main_writes W fuel argv a Hp []) as (ev & s' & Htr & Hst & _).
  simpl in Htr. rewrite Htr in Hc. apply steps_writes_within in Hst.
  rewrite Forall_forall in Hst. specialize (Hst c Hc).
  rewrite Forall_forall in Hst. apply in_app_or. now apply Hst.
Qed.

Lemma C7_outputs_witness :
  let W := Demo.world [Demo.path_a] 1 [] in
  let argv := ["--local_rank"; "0"; "--max_episodes"; "1"] in
  exists a, parse_args W argv = Ok a /\
    (In "garbage/models/pol_last.pkl" (output_files a) \/
     In "garbage/models/pol_last.pkl" (output_dirs a)).
Proof.
  cbv zeta.
  pose (W := Demo.world [Demo.path_a] 1 []).
  pose (argv := ["--local_rank"; "0"; "--max_episodes"; "1"]).
  pose (a := args_of (defaults ++ [("local_rank", VInt 0); ("max_episodes", VInt 1)])).
  assert (Hp : parse_args W argv = Ok a) by (vm_compute; reflexivity).
  exists a. split; [exact Hp|].
  apply (C7_outputs W 3 argv a Hp (TorchSave Pol "garbage/models/pol_last.pkl")).
  - vm_compute. find_in.
  - now left.
Defined.

(** ** No validation, no recovery *)

Lemma clean_nil W : clean W [].
Proof. intros [|c0 tr0] c rest H; discriminate H. Qed.













Section Quiet.

Variable W : World.
Hypothesis quiet : forall tr c, raises W tr c = None.

Lemma returns_ret {A} (a : A) : returns (ret a).
Proof. intros tr. unfold ret. eauto. Qed.

Lemma returns_call {A} c (answer : trace -> A) : returns (call_ret W c answer).
Proof. intros tr. unfold call_ret. rewrite quiet. eauto. Qed.

Lemma returns_bind {A B} (m : M A) (f : A -> M B) :
  returns m -> (forall a, returns (f a)) -> returns (bind m f).
Proof.
  intros Hm Hf tr. unfold bind. destruct (Hm tr) as (a & tr1 & ->). apply Hf.
Qed.

Lemma prepare_log_returns a : returns (prepare_log W a).
Proof.
  unfold prepare_log, os_path_exists, when.
  repeat first [apply returns_ret | apply returns_call
               | apply returns_bind; [|intros ?]
               | match goal with |- returns (if ?b then _ else _) => destruct b end].
Qed.



End Quiet.

(** Handing on is a property of the script, not of every computation: one
    that catches what [sampler.sample] raises returns as if nothing had
    happened. *)
Lemma try_except_recovers :
  let F := Demo.failing_world [] 1 [] in
  ~ propagates F (try_except (call_ F SamplerSample) (fun _ => ret tt)).
Proof.
  cbv zeta. intros H. specialize (H [] (clean_nil _)).
  change (clean (Demo.failing_world [] 1 []) [SamplerSample]) in H.
  specialize (H [] SamplerSample [] eq_refl). discriminate H.
Qed.





Section WellFormed.

Variable W : World.
Variable a : Args.
Hypothesis quiet : forall tr c, raises W tr c = None.
Hypothesis sampled :
  forall tr, exists path0 rewards,
    first_item (iteration_paths W tr) = Ok path0 /\
    path_rewards (iteration_paths W tr) = Ok rewards.
Hypothesis reported :
  ppo_type a = "clip" \/
  forall tr, exists v, dict_get (train_result W tr) "new_kl_beta" = Ok v.


End WellFormed.




(** * Further properties of the script *)

(** ** Runs that stop on an exception *)

Lemma bind_continue {A B} (m : M A) (f : A -> M B) tr a tr1 r :
  m tr = (Returned a, tr1) -> f a tr1 = r -> bind m f tr = r.
Proof. intros H1 H2. unfold bind. now rewrite H1. Qed.

Lemma bind_raises {A B} (m : M A) (f : A -> M B) tr e tr1 :
  m tr = (Raised e, tr1) -> bind m f tr = (Raised e, tr1).
Proof. intros H. unfold bind. now rewrite H. Qed.

Lemma lift_raises {A} (r : result A) e tr :
  r = Raise e -> @lift A r tr = (Raised e, tr).
Proof. now intros ->. Qed.

(** Running forward to the step that raises, in a world where no call
    raises ([quiet]). *)
Ltac run_to quiet :=
  lazymatch goal with
  | |- bind _ _ _ = _ =>
    first [ eapply bind_continue; [run quiet | cbv beta iota; run_to quiet]
          | eapply bind_raises; run_to quiet ]
  | |- lift _ _ = _ =>
    apply lift_raises; repeat rewrite <- app_assoc; simpl app; eassumption
  | |- measure _ _ _ _ = _ => unfold measure; run_to quiet
  | |- update _ _ _ _ = _ => unfold update; run_to quiet
  | |- (if ?b then _ else _) _ = _ =>
    first [ is_constructor b; cbv iota; run_to quiet
          | match goal with H : b = _ |- _ => rewrite H; cbv iota; run_to quiet end ]
  end.

Lemma dict_get_missing d k :
  ~ In k (keys d) -> dict_get d k = Raise (KeyError k).
Proof.
  induction d as [|[k' v] d IH]; simpl; intros H; [reflexivity|].
  destruct (String.eqb_spec k' k) as [-> | N]; [tauto|]. apply IH. tauto.
Qed.

Lemma dict_get_found d k v :
  dict_get d k = Ok v -> In (k, v) d.
Proof.
  induction d as [|[k' v'] d IH]; simpl; [discriminate|].
  destruct (String.eqb_spec k' k) as [-> | N]; [intros [= ->]; now left|].
  intros H. right. now apply IH.
Qed.

Lemma dict_get_present d k :
  In k (keys d) -> exists v, dict_get d k = Ok v.
Proof.
  induction d as [|[k' v'] d IH]; simpl; [tauto|].
  destruct (String.eqb_spec k' k) as [-> | N]; [eauto|].
  intros [H | H]; [contradiction | now apply IH].
Qed.

Lemma through_update_quiet W a st tr :
  train_calls (through_update W a st tr) = [train_call a (kl_beta st)] /\
  filter logs_or_saves (through_update W a st tr) = [].
Proof.
  unfold through_update, before_update, train_call. simpl.
  now destruct (String.eqb (ppo_type a) "clip").
Qed.

(** What the loop body does up to the reading of the paths, when no call
    raises: it ends with the exception of the first failing step of lines
    132-140, after the update and before anything is logged or saved. *)
Lemma iteration_raises_after_update W a st tr e :
  (forall tr c, raises W tr c = None) ->
  (ppo_type a = "clip" \/ In "new_kl_beta" (keys (iteration_result W a tr))) ->
  rbind (first_item (iteration_paths W tr))
        (fun _ => path_rewards (iteration_paths W tr)) = Raise e ->
  iteration W a st tr = (Raised e, tr ++ through_update W a st tr).
Proof.
  intros quiet Hk Hbad.
  assert (Hk' : ppo_type a = "clip" \/
                exists v, dict_get (iteration_result W a tr) "new_kl_beta" = Ok v).
  { destruct Hk as [Hk | Hk]; [now left | right; now apply dict_get_present]. }
  clear Hk.
  unfold through_update, train_call.
  unfold iteration_result, before_update, iteration_paths in *.
  assert (H : exists tr', iteration W a st tr = (Raised e, tr') /\
    tr' = tr ++
      [MeasureEnter "sample"; SamplerSample; MeasureExit "sample";
       MeasureEnter "train";
       MkGAEVectorData (sampled_paths W (tr ++ [MeasureEnter "sample"]));
       Preprocess (gamma a) (lam a) true] ++
      [if String.eqb (ppo_type a) "clip"
       then PpoClipTrain (epoch_per_iter a) (batch_size a) (clip_param a) (ent_beta a)
       else PpoKlTrain (kl_beta st) (kl_targ a) (epoch_per_iter a) (batch_size a);
       MeasureExit "train"]).
  { destruct (first_item (sampled_paths W (tr ++ [MeasureEnter "sample"])))
      as [p0|e0] eqn:Hp; cbn [rbind] in Hbad;
      [|injection Hbad as ->];
      (destruct Hk' as [Hk | [v Hv]];
       [ apply String.eqb_eq in Hk
       | destruct (String.eqb (ppo_type a) "clip") eqn:Hk ]);
      eexists; (split; [unfold iteration; run_to quiet|]);
      rewrite ?Hk; repeat rewrite <- app_assoc; reflexivity. }
  destruct H as (tr' & -> & ->). reflexivity.
Qed.

Lemma path_rewards_short paths : forall p,
  In p paths -> done_flags p < 2 ->
  exists e, path_rewards paths = Raise e /\
            (e = IndexError \/ e = ZeroDivisionError).
Proof.
  induction paths as [|q paths IH]; intros p Hin Hp; [destruct Hin|].
  cbn [path_rewards].
  destruct (path_reward_cases q) as (H0 & H1 & H2).
  pose proof (done_flags_nonneg q) as Hq.
  destruct (Z.eq_dec (done_flags q) 0) as [E0 | N0];
    [rewrite (H0 E0); cbn [rbind]; eauto|].
  destruct (Z.eq_dec (done_flags q) 1) as [E1 | N1];
    [rewrite (H1 E1); cbn [rbind]; eauto|].
  destruct (H2 ltac:(lia)) as (f & l & _ & _ & E). rewrite E. cbn [rbind].
  destruct Hin as [-> | Hin]; [lia|].
  destruct (IH p Hin Hp) as (e & -> & He). cbn [rbind]. eauto.
Qed.

(** X1: when no library call raises and the update goes through (the
    variant is clip, or the dictionary of [ppo_kl.train] has a
    'new_kl_beta' entry), an iteration whose sample is the empty list
    stops with an IndexError at [paths[0]] (line 132): the update has been
    made, but nothing is logged and no checkpoint is written. *)
Theorem X1_empty_sample W a st tr :
  (forall tr c, raises W tr c = None) ->
  (ppo_type a = "clip" \/ In "new_kl_beta" (keys (iteration_result W a tr))) ->
  iteration_paths W tr = [] ->
  exists ev,
    iteration W a st tr = (Raised IndexError, tr ++ ev) /\
    train_calls ev = [train_call a (kl_beta st)] /\
    filter logs_or_saves ev = [].
Proof.
  intros quiet Hk Hp. exists (through_update W a st tr).
  split; [|apply through_update_quiet].
  apply iteration_raises_after_update; auto. now rewrite Hp.
Qed.

Lemma X1_empty_sample_witness :
  let W := Demo.world [] 1 [] in
  let a := Demo.args_rank 0 in
  fst (iteration W a (init_state a) []) = Raised IndexError.
Proof.
  cbv zeta.
  destruct (X1_empty_sample (Demo.world [] 1 []) (Demo.args_rank 0)
              (init_state (Demo.args_rank 0)) [])
    as (ev & E & _);
    [intros tr c; reflexivity | left; vm_compute; reflexivity | reflexivity|].
  rewrite E. reflexivity.
Defined.

(** X2: when no library call raises and the update goes through (the
    variant is clip, or the dictionary of [ppo_kl.train] has a
    'new_kl_beta' entry), an iteration in which one of the sampled paths
    has fewer than two done flags stops with an IndexError or a
    ZeroDivisionError in the rewards loop (lines 134-140), again after the
    update and before any logging or checkpoint; the work of the update is
    kept by no file. *)
Theorem X2_short_path W a st tr p :
  (forall tr c, raises W tr c = None) ->
  (ppo_type a = "clip" \/ In "new_kl_beta" (keys (iteration_result W a tr))) ->
  In p (iteration_paths W tr) ->
  done_flags p < 2 ->
  exists e ev,
    iteration W a st tr = (Raised e, tr ++ ev) /\
    (e = IndexError \/ e = ZeroDivisionError) /\
    train_calls ev = [train_call a (kl_beta st)] /\
    filter logs_or_saves ev = [].
Proof.
  intros quiet Hk Hin Hp.
  destruct (path_rewards_short _ _ Hin Hp) as (e & He & Hcase).
  exists e, (through_update W a st tr).
  split; [|split; [exact Hcase | apply through_update_quiet]].
  apply iteration_raises_after_update; auto.
  destruct (iteration_paths W tr); [destruct Hin|]. exact He.
Qed.

Lemma X2_short_path_witness :
  let W := Demo.world [Demo.path_a; mkPath [Demo.f1] [1]] 1 [] in
  let a := Demo.args_rank 0 in
  exists e, fst (iteration W a (init_state a) []) = Raised e /\
            (e = IndexError \/ e = ZeroDivisionError).
Proof.
  cbv zeta.
  destruct (X2_short_path (Demo.world [Demo.path_a; mkPath [Demo.f1] [1]] 1 [])
              (Demo.args_rank 0) (init_state (Demo.args_rank 0)) []
              (mkPath [Demo.f1] [1]))
    as (e & ev & E & He & _);
    [ intros tr c; reflexivity | left; vm_compute; reflexivity
    | right; left; reflexivity | vm_compute; reflexivity |].
  exists e. rewrite E. auto.
Defined.

(** X3: with [--ppo_type kl], when the dictionary returned by
    [ppo_kl.train] has no 'new_kl_beta' entry the iteration stops with
    KeyError('new_kl_beta') right after that call, inside the [train]
    block: the block is not left normally and nothing follows. *)
Theorem X3_missing_kl_beta W a st tr :
  (forall tr c, raises W tr c = None) ->
  ppo_type a <> "clip" ->
  ~ In "new_kl_beta" (keys (iteration_result W a tr)) ->
  iteration W a st tr =
    (Raised (KeyError "new_kl_beta"),
     tr ++ before_update W a tr ++
       [PpoKlTrain (kl_beta st) (kl_targ a) (epoch_per_iter a) (batch_size a)]).
Proof.
  intros quiet Hty Hk. apply dict_get_missing in Hk.
  apply String.eqb_neq in Hty.
  unfold iteration_result, before_update, iteration_paths in *.
  assert (H : exists tr',
    iteration W a st tr = (Raised (KeyError "new_kl_beta"), tr') /\
    tr' = tr ++
      [MeasureEnter "sample"; SamplerSample; MeasureExit "sample";
       MeasureEnter "train";
       MkGAEVectorData (sampled_paths W (tr ++ [MeasureEnter "sample"]));
       Preprocess (gamma a) (lam a) true] ++
      [PpoKlTrain (kl_beta st) (kl_targ a) (epoch_per_iter a) (batch_size a)]).
  { eexists. split; [unfold iteration; run_to quiet|].
    repeat rewrite <- app_assoc. reflexivity. }
  destruct H as (tr' & -> & ->). reflexivity.
Qed.

Lemma X3_missing_kl_beta_witness :
  let W := Demo.world [Demo.path_a] 1 [] in
  let a := Demo.args_kl 0 in
  fst (iteration W a (init_state a) []) = Raised (KeyError "new_kl_beta").
Proof.
  cbv zeta.
  rewrite (X3_missing_kl_beta (Demo.world [Demo.path_a] 1 []) (Demo.args_kl 0));
    [ reflexivity | intros tr c; reflexivity | vm_compute; discriminate
    | vm_compute; tauto ].
Defined.

(** ** The processes of the other ranks *)

Lemma steps_only P ev : forall s s',
  steps _ (only P) s ev s' -> Forall P ev.
Proof.
  induction ev as [|c ev IH]; simpl; intros s s' H; [constructor|].
  destruct H as (s1 & [Hc _] & H). constructor; [exact Hc | eauto].
Qed.

Ltac only_tac := split; reflexivity.

Lemma main_other_rank W fuel argv a :
  parse_args W argv = Ok a ->
  is_rank0 a = false ->
  obeys _ (only (fun c => rank0_only c = false)) tt
        (main W fuel argv) (fun _ _ => True).
Proof.
  intros Hp Hr. unfold main, configure. rewrite Hp.
  apply obeys_bind, obeys_lift. intros a0 [= <-].
  apply obeys_bind, obeys_bind.
  eapply obeys_conseq with (Q := fun _ s => s = tt).
  { unfold prepare_log. rewrite Hr. obey only_tac; reflexivity. }
  intros _ s ->. apply obeys_bind, obeys_lift. intros a' Ha'.
  pose proof (derive_seed_rank _ _ Ha') as Hr'. rewrite Hr in Hr'.
  apply obeys_bind.
  eapply obeys_conseq with (Q := fun _ s => s = tt).
  { unfold build. obey only_tac. reflexivity. }
  intros _ s ->. apply obeys_ret.
  eapply obeys_conseq.
  - apply (obeys_train_loop W _ _ (fun s => s = tt)); [|reflexivity].
    intros st s ->. unfold iteration, update. rewrite Hr'.
    obey only_tac; reflexivity.
  - auto.
Qed.

Lemma train_loop_other_rank W a :
  is_rank0 a = false ->
  forall fuel st tr st' tr',
    train_loop W fuel a st tr = (Returned st', tr') ->
    max_rew st' = max_rew st.
Proof.
  intros Hr. induction fuel as [|fuel IH]; intros st tr st' tr' H;
    cbn [train_loop] in H; destruct (max_episodes a >? total_epi st).
  - discriminate.
  - apply ret_returned in H. now destruct H as [-> _].
  - apply bind_returned in H. destruct H as (st1 & tr1 & H1 & H2).
    apply IH in H2. rewrite H2. apply iteration_returned in H1.
    destruct H1 as (path0 & rewards & _ & _ & _ & _ & _ & Hm & _).
    now rewrite Hr in Hm.
  - apply ret_returned in H. now destruct H as [-> _].
Qed.

(** X4: a process whose [--local_rank] is not 0 never prints the
    arguments, never calls [logger.record_results] and never writes a
    checkpoint, whatever happens in the run; and when its loop returns,
    [max_rew] is still -1e6. *)
Theorem X4_other_ranks W fuel argv a :
  parse_args W argv = Ok a ->
  is_rank0 a = false ->
  Forall (fun c => rank0_only c = false) (snd (main W fuel argv [])) /\
  forall st, fst (main W fuel argv []) = Returned st -> max_rew st = f_minus_1e6.
Proof.
  intros Hp Hr. split.
  - destruct (main_other_rank W fuel argv a Hp Hr []) as (ev & s' & Htr & Hst & _).
    simpl in Htr. rewrite Htr. now apply steps_only in Hst.
  - intros st H. destruct (main W fuel argv []) as [o tr] eqn:E.
    simpl in H. subst o. unfold main, configure in E. rewrite Hp in E. inv_run.
    match goal with H : Ok _ = Ok _ |- _ => apply Ok_inj in H; subst end.
    match goal with H : derive_seed _ = Ok ?a' |- _ =>
      pose proof (derive_seed_rank _ _ H) as Hr' end.
    rewrite Hr in Hr'.
    match goal with H : train_loop _ _ _ _ _ = _ |- _ =>
      apply (train_loop_other_rank W _ Hr') in H; rewrite H end.
    reflexivity.
Qed.

Lemma X4_other_ranks_witness :
  let W := Demo.world [Demo.path_a] 1 [] in
  let argv := ["--local_rank"; "1"; "--max_episodes"; "2"] in
  Forall (fun c => rank0_only c = false) (snd (main W 5 argv [])).
Proof.
  cbv zeta.
  assert (Hp : parse_args (Demo.world [Demo.path_a] 1 [])
                          ["--local_rank"; "1"; "--max_episodes"; "2"]
               = Ok (Demo.args_short 1)) by (vm_compute; reflexivity).
  assert (Hr : is_rank0 (Demo.args_short 1) = false) by (vm_compute; reflexivity).
  exact (proj1 (X4_other_ranks _ 5 _ _ Hp Hr)).
Defined.

(** ** The clip variant and [kl_beta] *)

Lemma train_loop_clip W a :
  ppo_type a = "clip" ->
  forall fuel st tr st' tr',
    train_loop W fuel a st tr = (Returned st', tr') ->
    kl_beta st' = kl_beta st.
Proof.
  intros Hc. induction fuel as [|fuel IH]; intros st tr st' tr' H;
    cbn [train_loop] in H; destruct (max_episodes a >? total_epi st).
  - discriminate.
  - apply ret_returned in H. now destruct H as [-> _].
  - apply bind_returned in H. destruct H as (st1 & tr1 & H1 & H2).
    apply IH in H2. rewrite H2. apply iteration_returned in H1.
    destruct H1 as (path0 & rewards & _ & _ & _ & _ & Hk & _).
    now rewrite Hc in Hk.
  - apply ret_returned in H. now destruct H as [-> _].
Qed.

Lemma main_clip W fuel argv a :
  parse_args W argv = Ok a ->
  ppo_type a = "clip" ->
  obeys _ (only (fun c => match c with PpoKlTrain _ _ _ _ => False | _ => True end))
        tt (main W fuel argv) (fun _ _ => True).
Proof.
  intros Hp Hc. unfold main, configure. rewrite Hp.
  apply obeys_bind, obeys_lift. intros a0 [= <-].
  apply obeys_bind, obeys_bind.
  eapply obeys_conseq with (Q := fun _ s => s = tt).
  { unfold prepare_log. obey ltac:(split; [exact I | reflexivity]); reflexivity. }
  intros _ s ->. apply obeys_bind, obeys_lift. intros a' Ha'.
  destruct (derive_seed_fields _ _ Ha') as (r & Hr & ->).
  apply obeys_bind.
  eapply obeys_conseq with (Q := fun _ s => s = tt).
  { unfold build. obey ltac:(split; [exact I | reflexivity]). reflexivity. }
  intros _ s ->. apply obeys_ret.
  eapply obeys_conseq.
  - apply (obeys_train_loop W _ _ (fun s => s = tt)); [|reflexivity].
    intros st s ->. unfold iteration, update, checkpoint.
    change (ppo_type (set_seed a (seed a * (r + 23)))) with (ppo_type a).
    rewrite Hc. change (String.eqb "clip" "clip") with true. cbv iota.
    obey ltac:(split; [exact I | reflexivity]); reflexivity.
  - auto.
Qed.

(** X5: with [--ppo_type clip] (the default) [ppo_kl.train] is never
    called, and [kl_beta] keeps the value of [--init_kl_beta] through the
    whole loop. *)
Theorem X5_clip_keeps_kl_beta W fuel argv a :
  parse_args W argv = Ok a ->
  ppo_type a = "clip" ->
  Forall (fun c => match c with PpoKlTrain _ _ _ _ => False | _ => True end)
         (snd (main W fuel argv [])) /\
  forall st, fst (main W fuel argv []) = Returned st ->
             kl_beta st = init_kl_beta a.
Proof.
  intros Hp Hc. split.
  - destruct (main_clip W fuel argv a Hp Hc []) as (ev & s' & Htr & Hst & _).
    simpl in Htr. rewrite Htr. now apply steps_only in Hst.
  - intros st H. destruct (main W fuel argv []) as [o tr] eqn:E.
    simpl in H. subst o. unfold main, configure in E. rewrite Hp in E. inv_run.
    match goal with H : Ok _ = Ok _ |- _ => apply Ok_inj in H; subst end.
    match goal with H : derive_seed _ = Ok ?a' |- _ =>
      destruct (derive_seed_fields _ _ H) as (r & Hr & ->) end.
    match goal with H : train_loop _ _ _ _ _ = _ |- _ =>
      apply (train_loop_clip W (set_seed _ _) Hc) in H; rewrite H end.
    reflexivity.
Qed.

Lemma X5_clip_keeps_kl_beta_witness :
  let W := Demo.world [Demo.path_a] 1 [] in
  let argv := ["--local_rank"; "0"; "--max_episodes"; "2"] in
  Forall (fun c => match c with PpoKlTrain _ _ _ _ => False | _ => True end)
         (snd (main W 5 argv [])).
Proof.
  cbv zeta.
  assert (Hp : parse_args (Demo.world [Demo.path_a] 1 [])
                          ["--local_rank"; "0"; "--max_episodes"; "2"]
               = Ok (Demo.args_short 0)) by (vm_compute; reflexivity).
  assert (Hc : ppo_type (Demo.args_short 0) = "clip") by (vm_compute; reflexivity).
  exact (proj1 (X5_clip_keeps_kl_beta _ 5 _ _ Hp Hc)).
Defined.

(** ** A mean reward that is not a number *)

Lemma float_gt_nan a b : is_nan a = true -> float_gt a b = false.
Proof.
  unfold float_gt, SFltb. destruct a; try discriminate. intros _.
  now destruct b.
Qed.

(** X6: when the mean reward of an iteration is a nan, the comparison of
    line 149 is false: no best-reward file is written, [max_rew] stays as
    it is, and the four most-recent files are written as usual. *)
Theorem X6_nan_mean_reward W a st tr st' tr' mean_rew :
  is_rank0 a = true ->
  iteration W a st tr = (Returned st', tr') ->
  iteration_mean_rew W tr = Ok mean_rew ->
  is_nan mean_rew = true ->
  max_rew st' = max_rew st /\
  exists ev, tr' = tr ++ ev /\ saved ev = last_files a.
Proof.
  intros Hr H Hm Hnan.
  destruct (iteration_max_rew _ _ _ _ _ _ H) as (m & ev & Hm' & -> & Hmax & Hs).
  rewrite Hm in Hm'. apply Ok_inj in Hm'. subst m.
  rewrite Hr, (float_gt_nan _ _ Hnan) in *. simpl in *.
  split; [exact Hmax | exists ev; auto].
Qed.

Lemma X6_nan_mean_reward_witness :
  let W := Demo.world [mkPath [S754_nan; Demo.f1] [1; 0; 1]] 1 [] in
  let a := Demo.args_rank 0 in
  max_rew (Demo.value_of (init_state a) (iteration W a (init_state a) [])) =
  f_minus_1e6.
Proof.
  cbv zeta.
  pose (W := Demo.world [mkPath [S754_nan; Demo.f1] [1; 0; 1]] 1 []).
  pose (a := Demo.args_rank 0).
  pose (r := iteration W a (init_state a) []).
  assert (H : r = (Returned (Demo.value_of (init_state a) r), snd r))
    by (vm_compute; reflexivity).
  assert (R : is_rank0 a = true) by (vm_compute; reflexivity).
  assert (Hm : iteration_mean_rew W [] = Ok S754_nan) by (vm_compute; reflexivity).
  exact (proj1 (X6_nan_mean_reward W a _ [] _ _ _ R H Hm eq_refl)).
Defined.

(** ** The episode budget without episodes, and its overshoot *)

(** X7: the loop ends only through its episode count.  When no iteration
    contributes an episode ([data.num_epi] is never positive) while the
    iterations themselves go through, the loop started below
    [--max_episodes] is still running after any number of iterations. *)
Theorem X7_no_episodes_no_end W a :
  (forall tr c, raises W tr c = None) ->
  (forall tr, data_num_epi W tr <= 0) ->
  (forall tr, exists path0 rewards,
     first_item (iteration_paths W tr) = Ok path0 /\
     path_rewards (iteration_paths W tr) = Ok rewards) ->
  (ppo_type a = "clip" \/
   forall tr, In "new_kl_beta" (keys (iteration_result W a tr))) ->
  forall fuel st tr,
    total_epi st < max_episodes a ->
    fst (train_loop W fuel a st tr) = OutOfFuel.
Proof.
  intros quiet Hepi Hpaths Hk.
  induction fuel as [|fuel IH]; intros st tr Hlt; cbn [train_loop];
    destruct (Z.gtb_spec (max_episodes a) (total_epi st)); try lia;
    [reflexivity|].
  destruct (Hpaths tr) as (p0 & rs & Hp & Hr).
  destruct (iteration_returns W a st tr p0 rs quiet Hp Hr) as (st1 & tr1 & E).
  { destruct Hk as [Hk | Hk]; [now left | right].
    apply dict_get_present, Hk. }
  unfold bind. rewrite E. apply IH.
  apply iteration_returned in E.
  destruct E as (path0 & rewards & _ & _ & -> & _).
  specialize (Hepi (tr ++ through_update W a st tr)). lia.
Qed.

Lemma X7_no_episodes_no_end_witness :
  let W := Demo.world [Demo.path_a] 0 [] in
  let a := Demo.args_short 0 in
  fst (train_loop W 7 a (init_state a) []) = OutOfFuel.
Proof.
  cbv zeta.
  apply (X7_no_episodes_no_end (Demo.world [Demo.path_a] 0 [])).
  - intros tr c. reflexivity.
  - intros tr. simpl. lia.
  - intros tr. exists Demo.path_a.
    exists [PyFloat (S754_finite false 4503599627370496 (-50))].
    split; vm_compute; reflexivity.
  - left. vm_compute. reflexivity.
  - vm_compute. reflexivity.
Defined.

(** X8: the loop can go over the budget, but by less than what one
    iteration contributes: if [data.num_epi] is at most [K] at every
    iteration, with [1 <= K], a loop that is started with [total_epi <
    max_episodes + K] and returns has [max_episodes <= total_epi <
    max_episodes + K].  The script starts its loop at 0, so this is every
    run with [--max_episodes] above [-K]; for a smaller [--max_episodes]
    the loop returns at once with 0. *)
Theorem X8_budget_overshoot W a K :
  (forall tr, data_num_epi W tr <= K) ->
  1 <= K ->
  forall fuel st tr st' tr',
    total_epi st < max_episodes a + K ->
    train_loop W fuel a st tr = (Returned st', tr') ->
    max_episodes a <= total_epi st' < max_episodes a + K.
Proof.
  intros Hepi HK. induction fuel as [|fuel IH]; intros st tr st' tr' Hlt H;
    cbn [train_loop] in H;
    destruct (Z.gtb_spec (max_episodes a) (total_epi st)) as [Hgt | Hle].
  - discriminate.
  - apply ret_returned in H. destruct H as [-> _]. lia.
  - apply bind_returned in H. destruct H as (st1 & tr1 & H1 & H2).
    apply (IH _ _ _ _ ) in H2; [exact H2|].
    apply iteration_returned in H1.
    destruct H1 as (path0 & rewards & _ & _ & -> & _).
    specialize (Hepi (tr ++ through_update W a st tr)). lia.
  - apply ret_returned in H. destruct H as [-> _]. lia.
Qed.

Lemma X8_budget_overshoot_witness :
  let W := Demo.world [Demo.path_a] 3 [] in
  let a := Demo.args_short 0 in
  let r := train_loop W 5 a (init_state a) [] in
  max_episodes a <= total_epi (Demo.value_of (init_state a) r) < max_episodes a + 3.
Proof.
  cbv zeta.
  pose (W := Demo.world [Demo.path_a] 3 []).
  pose (a := Demo.args_short 0).
  pose (r := train_loop W 5 a (init_state a) []).
  assert (H : r = (Returned (Demo.value_of (init_state a) r), snd r))
    by (vm_compute; reflexivity).
  apply (X8_budget_overshoot W a 3) with (fuel := 5%nat) (st := init_state a)
                                         (tr := []) (tr' := snd r).
  - intros tr. simpl. lia.
  - lia.
  - vm_compute. reflexivity.
  - exact H.
Defined.

(** ** The step counts *)

Lemma len_cons {A} (x : A) l : len (x :: l) = 1 + len l.
Proof. unfold len. simpl List.length. lia. Qed.

Lemma samples_uniform L paths :
  (forall p, In p paths -> len (rews p) = L) ->
  samples paths = len paths * L.
Proof.
  induction paths as [|p paths IH]; intros H; [reflexivity|].
  cbn [samples fold_right]. fold (samples paths).
  rewrite IH by (intros q Hq; apply H; now right).
  rewrite (H p (or_introl eq_refl)), len_cons. lia.
Qed.

Lemma path_rewards_length paths : forall rewards,
  path_rewards paths = Ok rewards -> len rewards = len paths.
Proof.
  induction paths as [|p paths IH]; intros rewards H; cbn [path_rewards] in H.
  - now injection H as <-.
  - destruct (path_reward p); [|discriminate]. cbn [rbind] in H.
    destruct (path_rewards paths) as [rs|]; [|discriminate]. cbn [rbind] in H.
    injection H as <-. rewrite !len_cons. now rewrite (IH rs).
Qed.

(** X9: the step count of an iteration is the number of paths times the
    length of the first path times the world size.  So when all sampled
    paths have the same length, [total_step] grows by the world size times
    the number of sampled rewards; and on rank 0 exactly these counters,
    taken after the increment, and one reward per path, are what
    [logger.record_results] is given. *)
Theorem X9_step_count W a st tr st' tr' :
  iteration W a st tr = (Returned st', tr') ->
  (forall p q, In p (iteration_paths W tr) -> In q (iteration_paths W tr) ->
               len (rews p) = len (rews q)) ->
  total_step st' =
    total_step st + samples (iteration_paths W tr) * world_size a /\
  (is_rank0 a = true ->
   exists ev rewards,
     tr' = tr ++ ev /\
     len rewards = len (iteration_paths W tr) /\
     In (RecordResults (log a) (iteration_result W a tr) (score_file a)
                       (total_epi st')
                       (samples (iteration_paths W tr) * world_size a)
                       (total_step st') rewards (env_name a)) ev).
Proof.
  intros H Hu. apply iteration_returned in H.
  destruct H as (path0 & rewards & Hp & Hrs & _ & Hstep & _ & _ & ->).
  assert (Hs : samples (iteration_paths W tr) =
               len (iteration_paths W tr) * len (rews path0)).
  { apply samples_uniform. intros p Hin. apply Hu; [exact Hin|].
    destruct (iteration_paths W tr); [discriminate|].
    injection Hp as ->. now left. }
  rewrite Hs. split; [exact Hstep|].
  intros Hr. rewrite Hr. eexists. exists rewards.
  split; [reflexivity|]. split; [now apply path_rewards_length|].
  apply in_or_app. right. now left.
Qed.

Lemma X9_step_count_witness :
  let W := Demo.world [Demo.path_a; Demo.path_a] 1 [] in
  let a := Demo.args_rank 0 in
  total_step (Demo.value_of (init_state a) (iteration W a (init_state a) [])) =
  0 + 8 * 4.
Proof.
  cbv zeta.
  pose (W := Demo.world [Demo.path_a; Demo.path_a] 1 []).
  pose (a := Demo.args_rank 0).
  pose (r := iteration W a (init_state a) []).
  assert (H : r = (Returned (Demo.value_of (init_state a) r), snd r))
    by (vm_compute; reflexivity).
  refine (proj1 (X9_step_count W a _ [] _ _ H _)).
  intros p q [<- | [<- | []]] [<- | [<- | []]]; reflexivity.
Defined.

(** ** The rank flag *)

Lemma take_actions_dests W occs : forall stored,
  take_actions W occs = Ok stored -> map fst stored = map fst occs.
Proof.
  induction occs as [|[d x] occs IH]; cbn [take_actions]; intros stored H.
  - now injection H as <-.
  - destruct (take_action W (d, x)) as [[d' v']|] eqn:E; [|discriminate].
    cbn [rbind] in H. destruct (take_actions W occs) as [es|]; [|discriminate].
    cbn [rbind] in H. injection H as <-. simpl.
    rewrite (take_action_dest _ _ _ _ _ E). f_equal. now apply IH.
Qed.

Lemma take_action_local_rank W x v :
  take_action W ("local_rank", x) = Ok ("local_rank", v) ->
  exists z, v = VInt z.
Proof.
  unfold take_action. simpl find_action. destruct x as [s|]; [|discriminate].
  unfold get_value. destruct (py_int W s) as [z|]; [|discriminate].
  cbn [rbind in_choices]. intros [= <-]. eauto.
Qed.

Lemma take_actions_local_rank W occs : forall stored v,
  take_actions W occs = Ok stored ->
  In ("local_rank", v) stored -> exists z, v = VInt z.
Proof.
  induction occs as [|[d x] occs IH]; cbn [take_actions]; intros stored v H Hin.
  - injection H as <-. destruct Hin.
  - destruct (take_action W (d, x)) as [[d' v']|] eqn:E; [|discriminate].
    cbn [rbind] in H. destruct (take_actions W occs) as [es|]; [|discriminate].
    cbn [rbind] in H. injection H as <-.
    destruct Hin as [Hin | Hin]; [|now apply (IH es)].
    injection Hin as -> ->.
    pose proof (take_action_dest _ _ _ _ _ E) as <-.
    now apply take_action_local_rank in E.
Qed.

Lemma getattr_found ns d v : getattr ns d = Some v -> In (d, v) ns.
Proof.
  induction ns as [|[d' v'] ns IH]; simpl; [discriminate|].
  destruct (getattr ns d) as [v0|].
  - intros [= <-]. right. now apply IH.
  - destruct (String.eqb_spec d' d) as [-> | N]; [|discriminate].
    intros [= <-]. now left.
Qed.

Lemma getattr_none ns d : getattr ns d = None -> ~ In d (map fst ns).
Proof.
  induction ns as [|[d' v'] ns IH]; simpl; [tauto|].
  destruct (getattr ns d) as [v0|]; [discriminate|].
  destruct (String.eqb_spec d' d) as [-> | N]; [discriminate|].
  intros _ [H | H]; [contradiction | now apply IH].
Qed.

(** X10: [args.local_rank] is [None] exactly when no [--local_rank] option
    is on the command line: the flag has no default, and a value that is
    given is an integer. *)
Theorem X10_local_rank_given W argv occs a :
  match_options W argv = Some occs ->
  parse_args W argv = Ok a ->
  (local_rank a = None <-> ~ In "local_rank" (map fst occs)).
Proof.
  intros Hm. unfold parse_args. rewrite Hm.
  destruct (take_actions W occs) as [stored|] eqn:E; [|discriminate].
  unfold rbind. intros H.
  assert (Ha : a = args_of (defaults ++ stored)) by congruence.
  subst a. clear H.
  change (local_rank (args_of (defaults ++ stored)))
    with (opt_int_attr (defaults ++ stored) "local_rank").
  unfold opt_int_attr. rewrite getattr_app.
  rewrite <- (take_actions_dests _ _ _ E).
  destruct (getattr stored "local_rank") as [v|] eqn:G.
  - pose proof (getattr_found _ _ _ G) as Hin.
    destruct (take_actions_local_rank _ _ _ _ E Hin) as [z ->].
    split; [discriminate|]. intros N. exfalso. apply N.
    change "local_rank" with (fst ("local_rank", VInt z)). now apply in_map.
  - split; [intros _; now apply getattr_none | reflexivity].
Qed.

Lemma X10_local_rank_given_witness :
  let W := Demo.world [] 1 [] in
  local_rank (args_of (defaults ++ [("seed", VInt 3)])) = None.
Proof.
  cbv zeta.
  apply (X10_local_rank_given (Demo.world [] 1 []) ["--seed"; "3"]
                              [("seed", Some "3")]);
    [ reflexivity | vm_compute; reflexivity | ].
  simpl. intros [H | []]. discriminate H.
Defined.

Lemma main_without_rank W fuel argv a tr :
  parse_args W argv = Ok a ->
  local_rank a = None ->
  snd (main W fuel argv tr) = snd (prepare_log W a tr) /\
  (fst (prepare_log W a tr) = Returned tt ->
   fst (main W fuel argv tr) = Raised TypeError).
Proof.
  intros Hp Hr. unfold main, configure, bind, lift, derive_seed.
  rewrite Hp, Hr. destruct (prepare_log W a tr) as [[[] | e |] tr1]; simpl;
    split; (reflexivity || discriminate).
Qed.

Lemma prepare_log_configuration W a :
  obeys _ (only (fun c => phase_of c = Configuration)) tt
        (prepare_log W a) (fun _ _ => True).
Proof. unfold prepare_log. obey only_tac; exact I. Qed.

Lemma prepare_log_dump W a :
  obeys _ (expecting (fun c => match c with JsonDump _ _ => true | _ => false end))
        [JsonDump a (os_path_join (log a) ["args.json"])]
        (prepare_log W a) (fun _ rem => rem = []).
Proof. unfold prepare_log. obey expect_tac; reflexivity. Qed.

(** X11: started without [--local_rank], the script still prepares the
    log directory and writes [args.json], and then stops with a TypeError
    at the seed derivation of line 83 ([None + 23]): before the process
    group, the seeding and every construction. *)
Theorem X11_missing_local_rank W fuel argv a :
  parse_args W argv = Ok a ->
  local_rank a = None ->
  Forall (fun c => phase_of c = Configuration) (snd (main W fuel argv [])) /\
  ((forall tr c, raises W tr c = None) ->
   fst (main W fuel argv []) = Raised TypeError /\
   In (JsonDump a (os_path_join (log a) ["args.json"]))
      (snd (main W fuel argv []))).
Proof.
  intros Hp Hr. destruct (main_without_rank W fuel argv a [] Hp Hr) as [Htr Hout].
  rewrite Htr. split.
  - destruct (prepare_log_configuration W a []) as (ev & s' & E & Hst & _).
    simpl in E. rewrite E. now apply steps_only in Hst.
  - intros quiet.
    destruct (prepare_log_returns W quiet a []) as ([] & tr1 & E).
    split; [apply Hout; now rewrite E|].
    destruct (prepare_log_dump W a []) as (ev & rem & Etr & Hst & HQ).
    rewrite E in *. cbn [fst snd] in *. apply steps_expecting in Hst.
    rewrite (HQ tt eq_refl), app_nil_r in Hst. rewrite Etr, app_nil_l.
    assert (Hin : In (JsonDump a (os_path_join (log a) ["args.json"]))
                     (filter (fun c => match c with JsonDump _ _ => true | _ => false end) ev))
      by (rewrite <- Hst; now left).
    apply filter_In in Hin. exact (proj1 Hin).
Qed.

Lemma X11_missing_local_rank_witness :
  let W := Demo.world [] 1 [] in
  fst (main W 3 ["--seed"; "3"] []) = Raised TypeError.
Proof.
  cbv zeta.
  assert (Hp : parse_args (Demo.world [] 1 []) ["--seed"; "3"] =
               Ok (args_of (defaults ++ [("seed", VInt 3)])))
    by (vm_compute; reflexivity).
  refine (proj1 (proj2 (X11_missing_local_rank _ 3 _ _ Hp _) _)).
  - vm_compute. reflexivity.
  - intros tr c. reflexivity.
Defined.

(** ** What [args.json] records *)

Lemma main_dump_and_seed W fuel argv a r :
  parse_args W argv = Ok a ->
  local_rank a = Some r ->
  obeys _ (only (fun c =>
                   match c with
                   | JsonDump x _ => x = a
                   | NpRandomSeed s => s = seed a * (r + 23)
                   | _ => True
                   end))
        tt (main W fuel argv) (fun _ _ => True).
Proof.
  intros Hp Hr. unfold main, configure. rewrite Hp.
  apply obeys_bind, obeys_lift. intros a0 [= <-].
  apply obeys_bind, obeys_bind.
  eapply obeys_conseq with (Q := fun _ s => s = tt).
  { unfold prepare_log.
    obey ltac:(split; [first [exact I | reflexivity] | reflexivity]); reflexivity. }
  intros _ s ->. apply obeys_bind, obeys_lift. intros a' Ha'.
  destruct (derive_seed_fields _ _ Ha') as (r' & Hr' & ->).
  assert (r' = r) as -> by congruence.
  apply obeys_bind.
  eapply obeys_conseq with (Q := fun _ s => s = tt).
  { unfold build.
    obey ltac:(split; [first [exact I | reflexivity] | reflexivity]). reflexivity. }
  intros _ s ->. apply obeys_ret.
  eapply obeys_conseq.
  - apply (obeys_train_loop W _ _ (fun s => s = tt)); [|reflexivity].
    intros st s ->. unfold iteration, update, checkpoint.
    obey ltac:(split; [exact I | reflexivity]); reflexivity.
  - auto.
Qed.

(** X12: the arguments are dumped before the seed is derived, so
    [args.json] holds the seed of the command line, not the seed the run
    uses: numpy is seeded with that seed times (local_rank + 23), which is
    a different number unless the seed is 0 or the rank is -22. *)
Theorem X12_dumped_seed W fuel argv a r :
  parse_args W argv = Ok a ->
  local_rank a = Some r ->
  forall x p s,
    In (JsonDump x p) (snd (main W fuel argv [])) ->
    In (NpRandomSeed s) (snd (main W fuel argv [])) ->
    x = a /\ s = seed x * (r + 23) /\
    (seed x <> 0 -> r <> -22 -> s <> seed x).
Proof.
  intros Hp Hr x p s Hx Hs.
  destruct (main_dump_and_seed W fuel argv a r Hp Hr []) as (ev & s' & Htr & Hst & _).
  simpl in Htr. rewrite Htr in *. apply steps_only in Hst.
  rewrite Forall_forall in Hst.
  pose proof (Hst _ Hx) as Ex. pose proof (Hst _ Hs) as Es.
  simpl in Ex, Es. subst x s. repeat split. nia.
Qed.

Lemma X12_dumped_seed_witness :
  let W := Demo.world [Demo.path_a] 1 [] in
  let argv := ["--local_rank"; "0"; "--max_episodes"; "2"] in
  In (JsonDump (Demo.args_short 0) "garbage/args.json") (snd (main W 5 argv [])) /\
  In (NpRandomSeed 5888) (snd (main W 5 argv [])) /\
  5888 <> seed (Demo.args_short 0).
Proof.
  cbv zeta.
  pose (W := Demo.world [Demo.path_a] 1 []).
  pose (argv := ["--local_rank"; "0"; "--max_episodes"; "2"]).
  assert (Hp : parse_args W argv = Ok (Demo.args_short 0)) by (vm_compute; reflexivity).
  assert (Hr : local_rank (Demo.args_short 0) = Some 0) by (vm_compute; reflexivity).
  assert (Hx : In (JsonDump (Demo.args_short 0) "garbage/args.json")
                  (snd (main W 5 argv []))) by (vm_compute; find_in).
  assert (Hs : In (NpRandomSeed 5888) (snd (main W 5 argv [])))
    by (vm_compute; find_in).
  destruct (X12_dumped_seed W 5 argv _ 0 Hp Hr _ _ _ Hx Hs) as (_ & _ & N).
  split; [exact Hx|]. split; [exact Hs|].
  apply N; vm_compute; discriminate.
Defined.

(** ** Everything goes under the log directory *)

Lemma prefix_refl s : String.prefix s s = true.
Proof.
  induction s as [|c s IH]; simpl; [reflexivity|].
  destruct (ascii_dec c c); [exact IH | contradiction].
Qed.

Lemma prefix_app_r l p x :
  String.prefix l p = true -> String.prefix l (p ++ x) = true.
Proof.
  revert p. induction l as [|c l IH]; intros p H.
  - now destruct (p ++ x)%string.
  - destruct p as [|d p]; [discriminate|]. simpl in *.
    destruct (ascii_dec c d); [now apply IH | discriminate].
Qed.

Lemma join_step_prefix l p b :
  startswith_sep b = false ->
  String.prefix l p = true -> String.prefix l (join_step p b) = true.
Proof.
  intros Hb Hp. unfold join_step. rewrite Hb.
  destruct (String.eqb p "" || endswith_sep p)%bool; now apply prefix_app_r.
Qed.

(** X13: every path that the script creates, writes or names as a place to
    write to begins with the value of [--log]: the joins of lines 75-159
    only append relative components to it. *)
Theorem X13_outputs_under_log W fuel argv a :
  parse_args W argv = Ok a ->
  forall c, In c (snd (main W fuel argv [])) ->
  forall p, In p (output_paths c) ->
    String.prefix (log a) p = true.
Proof.
  intros Hp c Hc p Hpth.
  destruct (main_writes W fuel argv a Hp []) as (ev & s' & Htr & Hst & _).
  simpl in Htr. rewrite Htr in Hc. apply steps_writes_within in Hst.
  rewrite Forall_forall in Hst. specialize (Hst c Hc).
  rewrite Forall_forall in Hst. specialize (Hst p Hpth).
  unfold output_files, output_dirs, score_file, model_file, os_path_join in Hst.
  cbn [app fold_left In] in Hst.
  repeat (destruct Hst as [<- | Hst];
          [repeat (apply join_step_prefix; [reflexivity|]); apply prefix_refl|]).
  destruct Hst.
Qed.

Lemma X13_outputs_under_log_witness :
  let W := Demo.world [Demo.path_a] 1 [] in
  let argv := ["--local_rank"; "0"; "--max_episodes"; "1"] in
  String.prefix "garbage" "garbage/models/pol_last.pkl" = true.
Proof.
  cbv zeta.
  pose (W := Demo.world [Demo.path_a] 1 []).
  pose (argv := ["--local_rank"; "0"; "--max_episodes"; "1"]).
  pose (a := args_of (defaults ++ [("local_rank", VInt 0); ("max_episodes", VInt 1)])).
  assert (Hp : parse_args W argv = Ok a) by (vm_compute; reflexivity).
  apply (X13_outputs_under_log W 3 argv a Hp
           (TorchSave Pol "garbage/models/pol_last.pkl")).
  - vm_compute. find_in.
  - now left.
Defined.

(** ** Directories are made only where none exists *)

Lemma guarded_nil W : mkdir_guarded W [].
Proof. intros [|c h] p rest H; discriminate H. Qed.

Lemma snoc_split {A} (tr h : list A) (c x : A) rest :
  tr ++ [c] = h ++ x :: rest ->
  (rest = [] /\ h = tr /\ x = c) \/
  (exists rest', rest = rest' ++ [c] /\ tr = h ++ x :: rest').
Proof.
  intros E. destruct (exists_last (l := x :: rest)) as (l' & c' & E');
    [discriminate|].
  rewrite E' in E. rewrite app_assoc in E. apply app_inj_tail in E.
  destruct E as [-> <-]. destruct l' as [|y l'].
  - left. simpl in E'. injection E' as -> E'.
    destruct rest; [|destruct rest; discriminate]. now rewrite app_nil_r.
  - right. injection E' as <- ->. eauto.
Qed.

Lemma guarded_snoc W tr c :
  mkdir_guarded W tr -> is_mkdir c = false -> mkdir_guarded W (tr ++ [c]).
Proof.
  intros G Hc h p rest E.
  destruct (snoc_split _ _ _ _ _ E) as [(_ & _ & <-) | (rest' & _ & ->)];
    [discriminate Hc|]. eapply G. reflexivity.
Qed.

Lemma guarded_mkdir W h0 p :
  mkdir_guarded W (h0 ++ [OsPathExists p]) ->
  raises W h0 (OsPathExists p) = None ->
  path_exists W h0 p = false ->
  mkdir_guarded W ((h0 ++ [OsPathExists p]) ++ [OsMkdir p]).
Proof.
  intros G Hr Hp h q rest E.
  destruct (snoc_split _ _ _ _ _ E) as [(_ & -> & [= ->]) | (rest' & _ & E')];
    [eauto|]. eapply G. exact E'.
Qed.

Lemma guarded_app W ev : forall tr,
  mkdir_guarded W tr -> Forall (fun c => is_mkdir c = false) ev ->
  mkdir_guarded W (tr ++ ev).
Proof.
  induction ev as [|c ev IH]; intros tr G H; [now rewrite app_nil_r|].
  inversion H as [|? ? Hc Hev]; subst.
  change (c :: ev) with ([c] ++ ev). rewrite app_assoc.
  apply IH; [now apply guarded_snoc | exact Hev].
Qed.

Lemma wp_ret {A} (a : A) (Q : A -> trace -> Prop) R tr :
  Q a tr -> wp (ret a) Q R tr.
Proof. intros H. exact H. Qed.

Lemma wp_bind {A B} (m : M A) (f : A -> M B) (Q : B -> trace -> Prop) R tr :
  wp m (fun a tr1 => wp (f a) Q R tr1) R tr -> wp (bind m f) Q R tr.
Proof.
  unfold wp, bind. destruct (m tr) as [[a | e |] tr1]; auto.
Qed.

Lemma wp_call {A} W c (answer : trace -> A) (Q : A -> trace -> Prop) R tr :
  (raises W tr c <> None -> R (tr ++ [c])) ->
  (raises W tr c = None -> Q (answer tr) (tr ++ [c])) ->
  wp (call_ret W c answer) Q R tr.
Proof.
  unfold wp, call_ret. destruct (raises W tr c); intros H1 H2;
    [apply H1; discriminate | now apply H2].
Qed.

Lemma wp_lift {A} (r : result A) (Q : A -> trace -> Prop) (R : trace -> Prop) tr :
  R tr -> (forall a, r = Ok a -> Q a tr) -> wp (lift r) Q R tr.
Proof. unfold wp, lift. destruct r; auto. Qed.

(** A computation that makes no directory keeps the guard. *)
Lemma wp_no_mkdir {A} (m : M A) Q' W tr :
  obeys _ (only (fun c => is_mkdir c = false)) tt m Q' ->
  mkdir_guarded W tr ->
  wp m (fun _ tr' => mkdir_guarded W tr') (mkdir_guarded W) tr.
Proof.
  intros Hm G. destruct (Hm tr) as (ev & s' & E & Hst & _).
  apply steps_only in Hst. unfold wp.
  destruct (m tr) as [[a | e |] tr']; simpl in E; subst tr';
    now apply guarded_app.
Qed.

Lemma build_no_mkdir W a :
  obeys _ (only (fun c => is_mkdir c = false)) tt (build W a) (fun _ _ => True).
Proof. unfold build. obey only_tac. exact I. Qed.

Lemma train_loop_no_mkdir W fuel a st :
  obeys _ (only (fun c => is_mkdir c = false)) tt
        (train_loop W fuel a st) (fun _ _ => True).
Proof.
  eapply obeys_conseq.
  - apply (obeys_train_loop W _ _ (fun s => s = tt)); [|reflexivity].
    intros st0 s ->. unfold iteration, update, checkpoint.
    obey only_tac; reflexivity.
  - auto.
Qed.

Lemma guarded_check W tr p (rest : M unit) :
  mkdir_guarded W tr ->
  (forall tr', mkdir_guarded W tr' ->
               wp rest (fun _ t => mkdir_guarded W t) (mkdir_guarded W) tr') ->
  wp (bind (os_path_exists W p)
           (fun ex => bind (when (negb ex) (call_ W (OsMkdir p))) (fun _ => rest)))
     (fun _ t => mkdir_guarded W t) (mkdir_guarded W) tr.
Proof.
  intros G Hrest. apply wp_bind. unfold os_path_exists. apply wp_call.
  - intros _. now apply guarded_snoc.
  - intros Hr. apply wp_bind. unfold when.
    destruct (path_exists W tr p) eqn:Hp; simpl negb; cbv iota.
    + apply wp_ret, Hrest. now apply guarded_snoc.
    + assert (G' : mkdir_guarded W ((tr ++ [OsPathExists p]) ++ [OsMkdir p])).
      { apply guarded_mkdir; auto. now apply guarded_snoc. }
      unfold call_. apply wp_call; intros _; [exact G' | now apply Hrest].
Qed.

Lemma prepare_log_guarded W a tr :
  mkdir_guarded W tr ->
  wp (prepare_log W a) (fun _ t => mkdir_guarded W t) (mkdir_guarded W) tr.
Proof.
  intros G. unfold prepare_log.
  apply (guarded_check W tr (log a)); [exact G|].
  intros tr1 G1. unfold call_.
  apply wp_bind, wp_call; intros _; [now apply guarded_snoc|].
  apply wp_bind, wp_call; intros _; [now repeat apply guarded_snoc|].
  assert (G2 : mkdir_guarded W ((tr1 ++ [OpenW (os_path_join (log a) ["args.json"])])
                 ++ [JsonDump a (os_path_join (log a) ["args.json"])]))
    by (now repeat apply guarded_snoc).
  apply wp_bind. unfold when.
  assert (Hlast : forall tr', mkdir_guarded W tr' ->
    wp (bind (os_path_exists W (os_path_join (log a) ["models"]))
             (fun ex => when (negb ex)
                (call_ W (OsMkdir (os_path_join (log a) ["models"])))))
       (fun _ t => mkdir_guarded W t) (mkdir_guarded W) tr').
  { intros tr' G'. apply wp_bind. unfold os_path_exists. apply wp_call.
    - intros _. now apply guarded_snoc.
    - intros Hr. unfold when.
      destruct (path_exists W tr' (os_path_join (log a) ["models"])) eqn:Hp;
        simpl negb; cbv iota.
      + apply wp_ret. now apply guarded_snoc.
      + assert (G'' : mkdir_guarded W
                  ((tr' ++ [OsPathExists (os_path_join (log a) ["models"])])
                   ++ [OsMkdir (os_path_join (log a) ["models"])])).
        { apply guarded_mkdir; auto. now apply guarded_snoc. }
        unfold call_. apply wp_call; intros _; exact G''. }
  destruct (is_rank0 a).
  - unfold call_. apply wp_call; intros _; [now apply guarded_snoc|].
    apply Hlast. now apply guarded_snoc.
  - apply wp_ret. now apply Hlast.
Qed.

Lemma wp_seq {A B} (m : M A) (f : A -> M B) (I : trace -> Prop)
      (Q : B -> trace -> Prop) (R : trace -> Prop) tr :
  wp m (fun _ t => I t) I tr ->
  (forall a t, I t -> wp (f a) Q R t) ->
  (forall t, I t -> R t) ->
  wp (bind m f) Q R tr.
Proof.
  unfold wp, bind. destruct (m tr) as [[a | e |] t]; intros H Hf HR; auto.
  now apply Hf.
Qed.

Lemma configure_guarded W a tr :
  mkdir_guarded W tr ->
  wp (configure W a) (fun _ t => mkdir_guarded W t) (mkdir_guarded W) tr.
Proof.
  intros G. unfold configure.
  apply (wp_seq _ _ (mkdir_guarded W)); [now apply prepare_log_guarded | | auto].
  intros _ t Gt. apply wp_bind, wp_lift; [exact Gt|]. intros a' _.
  apply (wp_seq _ _ (mkdir_guarded W)); [| | auto].
  - exact (wp_no_mkdir _ _ W t (build_no_mkdir W a') Gt).
  - intros _ t' Gt'. now apply wp_ret.
Qed.

(** X14: in every run, each [os.mkdir(p)] comes directly after an
    [os.path.exists(p)] that has just answered [False], and the script
    makes no directory anywhere else: it never calls [mkdir] on a path it
    has seen to exist. *)
Theorem X14_mkdir_guarded W fuel argv :
  mkdir_guarded W (snd (main W fuel argv [])).
Proof.
  assert (H : wp (main W fuel argv) (fun _ t => mkdir_guarded W t)
                 (mkdir_guarded W) []).
  { unfold main. apply wp_bind, wp_lift; [apply guarded_nil|]. intros a _.
    apply (wp_seq _ _ (mkdir_guarded W));
      [apply configure_guarded, guarded_nil | | auto].
    intros a' t Gt.
    exact (wp_no_mkdir _ _ W t (train_loop_no_mkdir W fuel a' _) Gt). }
  unfold wp in H. destruct (main W fuel argv []) as [[st | e |] tr]; exact H.
Qed.

(** ** The window of the rewards *)

Lemma select_from_cons k m mask :
  select (map Z.of_nat (seq k (S (List.length mask)))) (m :: mask) =
  if m =? 1
  then Z.of_nat k :: select (map Z.of_nat (seq (S k) (List.length mask))) mask
  else select (map Z.of_nat (seq (S k) (List.length mask))) mask.
Proof. reflexivity. Qed.

Lemma select_from_in mask : forall k i,
  In i (select (map Z.of_nat (seq k (List.length mask))) mask) ->
  exists j, i = Z.of_nat (k + j) /\ nth_error mask j = Some 1.
Proof.
  induction mask as [|m mask IH]; intros k i H; [destruct H|].
  cbn [List.length] in H. rewrite select_from_cons in H.
  destruct (Z.eqb_spec m 1) as [-> | N].
  - destruct H as [<- | H].
    + exists 0%nat. split; [f_equal; lia | reflexivity].
    + destruct (IH _ _ H) as (j & -> & Hj). exists (S j).
      split; [f_equal; lia | exact Hj].
  - destruct (IH _ _ H) as (j & -> & Hj). exists (S j).
    split; [f_equal; lia | exact Hj].
Qed.

Lemma select_from_sorted mask : forall k,
  StronglySorted Z.lt (select (map Z.of_nat (seq k (List.length mask))) mask).
Proof.
  induction mask as [|m mask IH]; intros k; [constructor|].
  cbn [List.length]. rewrite select_from_cons.
  destruct (m =? 1); [|apply IH].
  constructor; [apply IH|]. apply Forall_forall. intros i Hi.
  destruct (select_from_in _ _ _ Hi) as (j & -> & _). lia.
Qed.

Lemma done_indices_from p :
  done_indices p =
  select (map Z.of_nat (seq 0 (List.length (dones p)))) (dones p).
Proof. unfold done_indices, arange, len. now rewrite Nat2Z.id. Qed.

Lemma getitem_first_cons x l : getitem (x :: l) 0 = Ok x.
Proof.
  unfold getitem. change (0 <? 0) with false. cbv iota.
  rewrite len_cons. destruct (Z.ltb_spec 0 (1 + len l)); [reflexivity|].
  unfold len in *. lia.
Qed.

Lemma getitem_last_cons x l y :
  l <> [] -> getitem (x :: l) (-1) = Ok y -> In y l.
Proof.
  intros Hl. unfold getitem. change (-1 <? 0) with true. cbv iota.
  rewrite len_cons.
  assert (Hn : (0 < List.length l)%nat) by (destruct l; [contradiction | simpl; lia]).
  destruct ((0 <=? -1 + (1 + len l)) && (-1 + (1 + len l) <? 1 + len l))%bool;
    [|discriminate].
  replace (Z.to_nat (-1 + (1 + len l))) with (S (List.length l - 1))
    by (unfold len; lia).
  cbn [nth_error].
  destruct (nth_error l (List.length l - 1)) as [z|] eqn:E; [|discriminate].
  intros [= <-]. now apply nth_error_In in E.
Qed.

(** X15: for a path with at least two done flags, the first and the last
    index that the rewards are summed between are positions of the mask
    that hold 1, and the first lies strictly before the last: the window
    [first:last] is a non-empty range inside the mask, and it leaves out
    the step of the last done flag and everything after it. *)
Theorem X15_reward_window p :
  2 <= done_flags p ->
  exists first last,
    getitem (done_indices p) 0 = Ok first /\
    getitem (done_indices p) (-1) = Ok last /\
    0 <= first < last /\ last < len (dones p) /\
    nth_error (dones p) (Z.to_nat first) = Some 1 /\
    nth_error (dones p) (Z.to_nat last) = Some 1.
Proof.
  intros Hk. destruct (path_reward_cases p) as (_ & _ & H2).
  destruct (H2 Hk) as (first & last & Hf & Hl & _).
  exists first, last. split; [exact Hf|]. split; [exact Hl|].
  pose proof (done_indices_length p) as Hlen.
  pose proof (select_from_sorted (dones p) 0) as Hs.
  rewrite <- done_indices_from in Hs.
  assert (Hin : forall i, In i (done_indices p) ->
                  exists j, i = Z.of_nat j /\ nth_error (dones p) j = Some 1).
  { intros i Hi. rewrite done_indices_from in Hi.
    destruct (select_from_in _ _ _ Hi) as (j & -> & Hj). eauto. }
  destruct (done_indices p) as [|x [|y l]] eqn:E;
    try (unfold len in Hlen; simpl in Hlen; lia).
  rewrite getitem_first_cons in Hf. apply Ok_inj in Hf. subst x.
  apply getitem_last_cons in Hl; [|discriminate].
  inversion Hs as [|? ? _ Hlt]; subst.
  rewrite Forall_forall in Hlt. specialize (Hlt last Hl).
  destruct (Hin first (or_introl eq_refl)) as (jf & -> & Hjf).
  destruct (Hin last (or_intror Hl)) as (jl & -> & Hjl).
  rewrite !Nat2Z.id. repeat split; try lia; auto.
  assert (jl < List.length (dones p))%nat
    by (apply nth_error_Some; congruence).
  unfold len. lia.
Qed.

Lemma X15_reward_window_witness :
  exists first last,
    getitem (done_indices Demo.path_a) 0 = Ok first /\
    getitem (done_indices Demo.path_a) (-1) = Ok last /\
    0 <= first < last.
Proof.
  assert (H2 : 2 <= done_flags Demo.path_a) by (vm_compute; discriminate).
  destruct (X15_reward_window Demo.path_a H2) as (f & l & Hf & Hl & Hlt & _).
  exists f, l. auto.
Defined.

(** ** The device of a process *)

Lemma string_of_Z_inj x y : string_of_Z x = string_of_Z y -> x = y.
Proof.
  unfold string_of_Z. intros H.
  assert (N : forall z, Z.to_int z <> Decimal.Pos Decimal.Nil /\
                        Z.to_int z <> Decimal.Neg Decimal.Nil).
  { intros [|q|q]; simpl; split; try discriminate;
      intros [= E]; exact (Unsigned.to_uint_nonnil _ E). }
  apply (f_equal NilZero.int_of_string) in H.
  rewrite !NilZero.isi in H by apply N.
  injection H as H. apply (f_equal Z.of_int) in H.
  now rewrite !DecimalZ.of_to in H.
Qed.

Lemma main_device W fuel argv a :
  parse_args W argv = Ok a ->
  obeys _ (only (on_device (device_name a))) tt
        (main W fuel argv) (fun _ _ => True).
Proof.
  intros Hp. unfold main, configure. rewrite Hp.
  apply obeys_bind, obeys_lift. intros a0 [= <-].
  apply obeys_bind, obeys_bind.
  eapply obeys_conseq with (Q := fun _ s => s = tt).
  { unfold prepare_log. obey ltac:(split; [exact I | reflexivity]); reflexivity. }
  intros _ s ->. apply obeys_bind, obeys_lift. intros a' Ha'.
  destruct (derive_seed_fields _ _ Ha') as (r & Hr & ->).
  apply obeys_bind.
  eapply obeys_conseq with (Q := fun _ s => s = tt).
  { unfold build.
    obey ltac:(split; [first [exact I | reflexivity] | reflexivity]).
    reflexivity. }
  intros _ s ->. apply obeys_ret.
  eapply obeys_conseq.
  - apply (obeys_train_loop W _ _ (fun s => s = tt)); [|reflexivity].
    intros st s ->. unfold iteration, update, checkpoint.
    obey ltac:(split; [exact I | reflexivity]); reflexivity.
  - auto.
Qed.

(** X16: the device that a process selects is "cuda:<local_rank>", in
    decimal; so two processes select the same device exactly when they
    were started with the same [--local_rank], whatever else differs
    between their command lines. *)
Theorem X16_device_per_rank W W' fuel fuel' argv argv' a a' r r' d d' :
  parse_args W argv = Ok a -> local_rank a = Some r ->
  parse_args W' argv' = Ok a' -> local_rank a' = Some r' ->
  In (SetDevice d) (snd (main W fuel argv [])) ->
  In (SetDevice d') (snd (main W' fuel' argv' [])) ->
  d = ("cuda:" ++ string_of_Z r)%string /\ (d = d' <-> r = r').
Proof.
  intros Hp Hr Hp' Hr' Hd Hd'.
  assert (E : forall V f av x y c,
            parse_args V av = Ok x -> local_rank x = Some y ->
            In (SetDevice c) (snd (main V f av [])) ->
            c = ("cuda:" ++ string_of_Z y)%string).
  { intros V f av x y c Hx Hy Hc.
    destruct (main_device V f av x Hx []) as (ev & s' & Htr & Hst & _).
    simpl in Htr. rewrite Htr in Hc. apply steps_only in Hst.
    rewrite Forall_forall in Hst. apply Hst in Hc. simpl in Hc.
    subst c. unfold device_name. now rewrite Hy. }
  rewrite (E _ _ _ _ _ _ Hp Hr Hd), (E _ _ _ _ _ _ Hp' Hr' Hd').
  split; [reflexivity|]. split.
  - intros H. apply string_of_Z_inj.
    cbn [String.append] in H. now injection H.
  - now intros ->.
Qed.

Lemma X16_device_per_rank_witness :
  "cuda:0" = ("cuda:" ++ string_of_Z 0)%string /\ ("cuda:0" = "cuda:1" <-> 0 = 1).
Proof.
  apply (X16_device_per_rank
           (Demo.world [Demo.path_a] 1 []) (Demo.world [Demo.path_a] 1 []) 5 5
           ["--local_rank"; "0"; "--max_episodes"; "2"]
           ["--local_rank"; "1"; "--max_episodes"; "2"]
           (Demo.args_short 0) (Demo.args_short 1) 0 1);
    [ vm_compute; reflexivity | reflexivity
    | vm_compute; reflexivity | reflexivity
    | vm_compute; find_in | vm_compute; find_in ].
Defined.

(** ** Defaults and the declared types *)

Lemma take_actions_float W d occs : forall stored v,
  find_action d parser = Some (Store TFloat None) ->
  take_actions W occs = Ok stored ->
  In (d, v) stored -> exists f, v = VNum (PyFloat f).
Proof.
  induction occs as [|[d0 x] occs IH]; cbn [take_actions];
    intros stored v Hf H Hin.
  - injection H as <-. destruct Hin.
  - destruct (take_action W (d0, x)) as [[d' v']|] eqn:E; [|discriminate].
    cbn [rbind] in H. destruct (take_actions W occs) as [es|]; [|discriminate].
    cbn [rbind] in H. injection H as <-.
    destruct Hin as [Hin | Hin]; [|now apply (IH es)].
    injection Hin as -> ->.
    pose proof (take_action_dest _ _ _ _ _ E) as <-.
    unfold take_action in E. rewrite Hf in E.
    destruct x as [s|]; [|discriminate]. unfold get_value in E.
    destruct (py_float W s) as [f|]; [|discriminate].
    cbn [rbind in_choices] in E. injection E as <-. eauto.
Qed.

Lemma parsed_float W argv occs a d dflt :
  find_action d parser = Some (Store TFloat None) ->
  getattr defaults d = Some (VNum dflt) ->
  match_options W argv = Some occs ->
  parse_args W argv = Ok a ->
  exists ns, a = args_of ns /\
    (~ In d (map fst occs) -> num_attr ns d = dflt) /\
    (In d (map fst occs) -> exists f, num_attr ns d = PyFloat f).
Proof.
  intros Hf Hd Hm. unfold parse_args. rewrite Hm.
  destruct (take_actions W occs) as [stored|] eqn:E; [|discriminate].
  unfold rbind. intros H.
  assert (Ha : a = args_of (defaults ++ stored)) by congruence.
  exists (defaults ++ stored). split; [exact Ha|].
  unfold num_attr. rewrite getattr_app, Hd.
  rewrite <- (take_actions_dests _ _ _ E).
  destruct (getattr stored d) as [v|] eqn:G.
  - pose proof (getattr_found _ _ _ G) as Hin.
    destruct (take_actions_float _ _ _ _ _ Hf E Hin) as [f ->].
    split; [|eauto]. intros N. exfalso. apply N.
    change d with (fst (d, VNum (PyFloat f))). now apply in_map.
  - split; [reflexivity|]. intros Hin.
    now apply getattr_none in G.
Qed.

(** X17: the declared [type=float] is applied to a value given on the
    command line, not to a default that is not a string: without
    [--init_kl_beta] (and likewise [--lam]) the argument is the int 1 of
    the declaration, with it the argument is a float. *)
Theorem X17_int_defaults W argv occs a :
  match_options W argv = Some occs ->
  parse_args W argv = Ok a ->
  (~ In "init_kl_beta" (map fst occs) -> init_kl_beta a = PyInt 1) /\
  (In "init_kl_beta" (map fst occs) -> exists f, init_kl_beta a = PyFloat f) /\
  (~ In "lam" (map fst occs) -> lam a = PyInt 1) /\
  (In "lam" (map fst occs) -> exists f, lam a = PyFloat f).
Proof.
  intros Hm Hp.
  destruct (parsed_float W argv occs a "init_kl_beta" (PyInt 1)
              eq_refl eq_refl Hm Hp) as (ns & -> & H1 & H2).
  destruct (parsed_float W argv occs (args_of ns) "lam" (PyInt 1)
              eq_refl eq_refl Hm Hp) as (ns' & E & H3 & H4).
  change (init_kl_beta (args_of ns)) with (num_attr ns "init_kl_beta").
  replace (lam (args_of ns)) with (num_attr ns' "lam")
    by (rewrite E; reflexivity).
  auto.
Qed.

Lemma X17_int_defaults_witness :
  init_kl_beta (Demo.args_rank 0) = PyInt 1.
Proof.
  apply (X17_int_defaults (Demo.world [] 1 []) ["--local_rank"; "0"]
                          [("local_rank", Some "0")]);
    [ reflexivity | vm_compute; reflexivity | ].
  simpl. intros [H | []]. discriminate H.
Defined.
